(** * stac_tiler.reader: a shallow embedding and its verified properties

    The development follows [stac_tiler/reader.py]:

    - Python values: strings as [string], [Optional[Set[str]]] filters as
      [option (gset string)] with Python truthiness written out, the
      insertion-ordered [item["assets"]] dict as an association list,
      keyword dictionaries handed to [numexpr] as [gmap string _];
    - exceptions as the [Raise] branch of [result];
    - the per-asset reads submitted to the thread pool are recorded in an
      event log carried by the [io] monad, so that "no read happened" is a
      statement about the log;
    - the libraries the module calls but does not contain (rio-tiler's
      [COGReader], [numexpr], [re], the iteration order of a Python [set],
      the document fetcher) are interfaces: type classes whose laws are the
      documented behaviour that the properties below depend on. *)

From Stdlib Require Import ZArith Ascii String Floats.SpecFloat Sorting.Sorted.
From stdpp Require Import base gmap strings list.

Local Open Scope string_scope.

(** ** Exceptions and results *)

Inductive exn : Type :=
| InvalidBandName (msg : string)
| Exception (msg : string)
| KeyError (key : string)
| AttributeError (attr : string)
| TypeError (msg : string)
| ValueError (msg : string)
| IndexError (msg : string)
| ExternalError (msg : string).

Inductive result (A : Type) : Type :=
| Ok (a : A)
| Raise (e : exn).
Arguments Ok {A} a.
Arguments Raise {A} e.

Definition rbind {A B} (r : result A) (k : A -> result B) : result B :=
  match r with
  | Ok a => k a
  | Raise e => Raise e
  end.

(** [collect rs]: what [list(iterator)] does when producing an element may
    raise; the first failure in order is the one that surfaces. *)
Fixpoint collect {A} (rs : list (result A)) : result (list A) :=
  match rs with
  | [] => Ok []
  | r :: rs' =>
      rbind r (fun a => rbind (collect rs') (fun l => Ok (a :: l)))
  end.

(** ** The catalog item *)

(** An asset descriptor is a JSON object of which the module reads the two
    keys ["href"] and ["type"]; a missing key is [None]. *)
Record AssetInfo : Type := mkAssetInfo {
  href : option string;
  type : option string
}.

(** Pixel and JSON numbers: integers or IEEE doubles. *)
Inductive scalar : Type :=
| SInt (z : Z)
| SFloat (f : spec_float).

(** The item dict: the keys ["bbox"] and ["assets"] that the module reads
    and the names of whatever other top-level keys are present.
    [item["assets"]] keeps the document's order and has unique keys. *)
Record Item : Type := mkItem {
  item_bbox : option (list scalar);
  item_assets : option (list (string * AssetInfo));
  other_keys : list string
}.

(** Truthiness of a dict: non-empty. *)
Definition item_truthy (it : Item) : bool :=
  match item_bbox it, item_assets it, other_keys it with
  | None, None, [] => false
  | _, _, _ => true
  end.

Definition asset_names (it : Item) : list string :=
  match item_assets it with
  | Some l => l.*1
  | None => []
  end.

(** Lookup in an insertion-ordered dict with unique keys. *)
Fixpoint dict_get {V} (d : list (string * V)) (k : string) : option V :=
  match d with
  | [] => None
  | (k', v) :: d' => if decide (k' = k) then Some v else dict_get d' k
  end.

(** ** Python truthiness of the optional filters *)

Definition set_truthy (s : option (gset string)) : bool :=
  match s with
  | Some s => negb (bool_decide (s = ∅))
  | None => false
  end.

(** [s and x in s] *)
Definition and_in (s : option (gset string)) (x : string) : bool :=
  match s with
  | Some s' => set_truthy s && bool_decide (x ∈ s')
  | None => false
  end.

(** [s and x not in s] *)
Definition and_not_in (s : option (gset string)) (x : string) : bool :=
  match s with
  | Some s' => set_truthy s && negb (bool_decide (x ∈ s'))
  | None => false
  end.

Definition DEFAULT_VALID_TYPE : gset string :=
  {[ "image/tiff; application=geotiff";
     "image/tiff; application=geotiff; profile=cloud-optimized";
     "image/vnd.stac.geotiff; cloud-optimized=true";
     "image/tiff";
     "image/x.geotiff";
     "image/jp2";
     "application/x-hdf5";
     "application/x-hdf" ]}.

(** ** [_get_assets] *)

(** The body of the [for] loop over [item["assets"].items()]: each
    [continue] skips the asset, [yield] emits it, and a descriptor without
    ["type"] raises. *)
Fixpoint _get_assets_loop
    (entries : list (string * AssetInfo))
    (include exclude include_asset_types exclude_asset_types : option (gset string))
    : result (list string) :=
  match entries with
  | [] => Ok []
  | (asset, asset_info) :: rest =>
      match type asset_info with
      | None => Raise (KeyError "type")
      | Some _type =>
          let continue_ :=
            _get_assets_loop rest include exclude
                             include_asset_types exclude_asset_types in
          if and_in exclude asset then continue_
          else if and_in exclude_asset_types _type || and_not_in include asset
          then continue_
          else if and_not_in include_asset_types _type || and_not_in include asset
          then continue_
          else rbind continue_ (fun l => Ok (asset :: l))
      end
  end.

Definition _get_assets
    (item : Item)
    (include exclude include_asset_types exclude_asset_types : option (gset string))
    : result (list string) :=
  match item_assets item with
  | None => Raise (KeyError "assets")
  | Some entries =>
      _get_assets_loop entries include exclude
                       include_asset_types exclude_asset_types
  end.

(** ** Python string operations used by the module *)

(** [s.split(sep)] for a one-character separator: never empty. *)
Fixpoint str_split (sep : ascii) (s : string) : list string :=
  match s with
  | EmptyString => [EmptyString]
  | String c s' =>
      if decide (c = sep) then EmptyString :: str_split sep s'
      else match str_split sep s' with
           | [] => [String c EmptyString]
           | w :: ws => String c w :: ws
           end
  end.

(** [sep.join(l)] *)
Definition str_join (sep : string) (l : list string) : string :=
  String.concat sep l.

(** ASCII characters for which [str.isspace] holds. *)
Definition py_isspace (c : ascii) : bool :=
  let n := nat_of_ascii c in
  ((9 <=? n)%nat && (n <=? 13)%nat) || ((28 <=? n)%nat && (n <=? 32)%nat).

Fixpoint str_lstrip (s : string) : string :=
  match s with
  | EmptyString => EmptyString
  | String c s' => if py_isspace c then str_lstrip s' else s
  end.

(** [s.strip()] *)
Definition str_strip (s : string) : string :=
  String.rev (str_lstrip (String.rev (str_lstrip s))).

(** [sorted(l, reverse=True)] on strings: descending, and stable (equal
    keys keep their relative order). *)
Fixpoint insert_desc (x : string) (l : list string) : list string :=
  match l with
  | [] => [x]
  | y :: ys => if (String.ltb x y) then y :: insert_desc x ys else x :: y :: ys
  end.

Definition sorted_reverse (l : list string) : list string :=
  foldr insert_desc [] l.

(** ** [re]: the fragment the module relies on

    [_parse_expression] compiles the asset names, joined by a bar, as a
    regular expression.  When no name contains a regular-expression
    metacharacter the pattern is an alternation of literal strings, and
    that fragment is given here in full: [re.findall] scans left to
    right, at each position takes the first alternative (in pattern
    order) that matches, and after an empty match retries the same
    position for a non-empty one before moving on (the rule of
    Python 3.7 and later; with the names sorted in reverse the empty
    alternative, if any, comes last and earlier versions agree). *)

Definition re_special (c : ascii) : bool :=
  bool_decide (c ∈ list_ascii_of_string ".^$*+?{}[]\()").

Definition re_literal_alternatives (pattern : string) : option (list string) :=
  if existsb re_special (list_ascii_of_string pattern) then None
  else Some (str_split "|" pattern).

(** First alternative that is a prefix of [s]; with [must_advance] an
    empty match is refused. *)
Fixpoint match_alt (alts : list string) (s : string) (must_advance : bool)
    : option string :=
  match alts with
  | [] => None
  | a :: rest =>
      if String.prefix a s && negb (must_advance && bool_decide (a = ""))
      then Some a
      else match_alt rest s must_advance
  end.

(** The matches that start at the current position, and how many
    characters the last one consumed. *)
Definition matches_here (alts : list string) (s : string) : list string * nat :=
  match match_alt alts s false with
  | None => ([], 0)
  | Some "" =>
      match match_alt alts s true with
      | None => ([""], 0)
      | Some a => ([""; a], String.length a)
      end
  | Some a => ([a], String.length a)
  end.

(** [skip] counts the characters of the current match still to be
    stepped over. *)
Fixpoint findall_scan (alts : list string) (s : string) (skip : nat)
    : list string :=
  match skip with
  | S k =>
      match s with
      | EmptyString => []
      | String _ s' => findall_scan alts s' k
      end
  | O =>
      let '(found, n) := matches_here alts s in
      match s with
      | EmptyString => found
      | String _ s' => found ++ findall_scan alts s' (pred n)
      end
  end.

Definition findall_alternatives (alts : list string) (s : string) : list string :=
  findall_scan alts s 0.

(** [re.findall(re.compile(pattern), s)].  Any engine that agrees with
    the literal fragment is admissible; outside the fragment nothing is
    assumed (the call may also raise [re.error]). *)
Class PyRe : Type := {
  re_findall : string -> string -> result (list string);
  re_findall_literal :
    forall pattern alts s,
      re_literal_alternatives pattern = Some alts ->
      re_findall pattern s = Ok (findall_alternatives alts s)
}.

(** [list(set(l))]: the distinct elements in an order the language does
    not specify. *)
Class PySet : Type := {
  list_of_set : list string -> list string;
  list_of_set_perm : forall l, list_of_set l ≡ₚ remove_dups l
}.

(** The document fetcher ([fetch], cached per location string). *)
Class Fetcher : Type := {
  fetch : string -> result Item
}.

(** ** Monads: [result] and the logged [io] *)

#[export] Instance result_ret : MRet result := fun _ a => Ok a.
#[export] Instance result_bind : MBind result := fun _ _ k r => rbind r k.
#[export] Instance result_fmap : FMap result :=
  fun _ _ f r => rbind r (fun a => Ok (f a)).

(** The operations of the single-raster reader. *)
Inductive reader_op : Type :=
| OpTile | OpPart | OpPreview | OpPoint | OpStats | OpInfo | OpMetadata.

(** One unit of work handed to the thread pool: an operation on the
    raster at a location. *)
Definition event : Type := reader_op * string.

(** A computation that submits reads and then returns or raises; the log
    survives a failure. *)
Definition io (A : Type) : Type := list event * result A.

Definition io_lift {A} (r : result A) : io A := ([], r).
Definition io_raise {A} (e : exn) : io A := ([], Raise e).

#[export] Instance io_ret : MRet io := fun _ a => ([], Ok a).
#[export] Instance io_bind : MBind io := fun _ _ k m =>
  match m with
  | (log, Ok a) => let '(log', r) := k a in ((log ++ log')%list, r)
  | (log, Raise e) => (log, Raise e)
  end.

(** ** numpy *)

Module np.

(** A two-dimensional array, row by row. *)
Abbreviation plane A := (list (list A)) (only parsing).

(** [(rows, cols)] of a rectangular plane; a ragged nest of lists is not
    an array. *)
Definition shape2 {A} (p : plane A) : option (nat * nat) :=
  match p with
  | [] => Some (0, 0)%nat
  | r :: rs =>
      if forallb (fun r' => (length r' =? length r)%nat) rs
      then Some (length p, length r)
      else None
  end.

Definition same_shape {A B} (p : plane A) (q : plane B) : bool :=
  match shape2 p, shape2 q with
  | Some s, Some s' => bool_decide (s = s')
  | _, _ => false
  end.

(** [numpy.concatenate(arrays)] on bands-first stacks: axis 0 is the band
    axis, every other dimension must agree. *)
Definition concatenate {A} (arrays : list (list (plane A)))
    : result (list (plane A)) :=
  match arrays with
  | [] => Raise (ValueError "need at least one array to concatenate")
  | _ =>
      let bands := concat arrays in
      match bands with
      | [] => Ok []
      | b0 :: _ =>
          if forallb (same_shape b0) bands then Ok bands
          else Raise (ValueError "all the input array dimensions except for the concatenation axis must match exactly")
      end
  end.

(** Truth value of a [uint8]. *)
Definition nonzero (v : Z) : bool := negb (v =? 0)%Z.

Definition logical_and (a b : plane bool) : plane bool :=
  zip_with (zip_with andb) a b.

(** [numpy.all((m0, ...ms), axis=0)]: the sequence becomes one array (so
    the shapes must agree) and [logical_and] is reduced along its first
    axis. *)
Definition all_axis0 (m0 : plane Z) (ms : list (plane Z))
    : result (plane bool) :=
  if forallb (same_shape m0) (m0 :: ms)
  then Ok (foldl logical_and (map (map nonzero) m0)
                 (map (map (map nonzero)) ms))
  else Raise (ValueError "setting an array element with a sequence").

(** [.astype(numpy.uint8) * 255], in 8-bit arithmetic. *)
Definition astype_uint8_times_255 (b : plane bool) : plane Z :=
  map (map (fun x : bool => (Z.b2z x * 255) mod 256)%Z) b.

(** The largest and the most negative finite binary64 values. *)
Definition DBL_MAX : spec_float := S754_finite false 9007199254740991 971.
Definition DBL_LOWEST : spec_float := S754_finite true 9007199254740991 971.

(** [numpy.nan_to_num] with its default arguments ([nan=0.0],
    [posinf=None], [neginf=None]): NaN becomes zero, an infinity becomes
    the finite value of largest magnitude and the same sign; integers
    and finite floats are returned as they are.  Floats are binary64, the
    type [numexpr] gives a division of integer bands. *)
Definition nan_to_num_scalar (x : scalar) : scalar :=
  match x with
  | SInt z => SInt z
  | SFloat S754_nan => SFloat (S754_zero false)
  | SFloat (S754_infinity false) => SFloat DBL_MAX
  | SFloat (S754_infinity true) => SFloat DBL_LOWEST
  | SFloat f => SFloat f
  end.


End np.

(** Arrays of any depth support [nan_to_num], element by element. *)
Class NanToNum (A : Type) : Type := nan_to_num : A -> A.
#[export] Instance nan_to_num_scalar_inst : NanToNum scalar := np.nan_to_num_scalar.
#[export] Instance nan_to_num_list `{NanToNum A} : NanToNum (list A) :=
  map nan_to_num.

(** [numexpr.evaluate(expr, local_dict=d)] on arrays of type [A]. *)
Class NumExpr (A : Type) : Type := {
  numexpr_evaluate : string -> gmap string A -> result A
}.

(** [dict(pairs)]: a later pair overrides an earlier one with the same key. *)
Definition py_dict {V} (pairs : list (string * V)) : gmap string V :=
  foldl (fun m kv => <[kv.1 := kv.2]> m) ∅ pairs.

(** ** [_apply_expression] *)

Definition _apply_expression {A} `{NumExpr A, NanToNum A}
    (blocks : list string) (bands : list string) (data : list A)
    : result (list A) :=
  let data := py_dict (zip bands data) in
  collect
    (map (fun bloc =>
            rbind (numexpr_evaluate (str_strip bloc) data)
                  (fun v => Ok (nan_to_num v)))
         blocks).

(** ** The single-raster reader (rio-tiler's [COGReader])

    One instance is opened per location and per call; what it returns is
    not this module's business.  [Kwargs] are the keyword options passed
    through untouched. *)

(** A tile matrix set, by its identifier. *)
Definition TileMatrixSet : Type := string.
Definition TMS : TileMatrixSet := "WebMercatorQuad".

(** A bands-first pixel stack and a validity mask. *)
Definition pixels : Type := list (np.plane scalar) * np.plane Z.

Class COGReader : Type := {
  Kwargs : Type;
  Stats : Type;
  Info : Type;
  Metadata : Type;
  cog_tile : string -> TileMatrixSet -> Z -> Z -> Z -> option string ->
             Kwargs -> result pixels;
  cog_part : string -> list scalar -> option Z -> option string ->
             Kwargs -> result pixels;
  cog_preview : string -> option string -> Kwargs -> result pixels;
  cog_point : string -> scalar -> scalar -> option string -> Kwargs ->
              result (list scalar);
  cog_stats : string -> scalar -> scalar -> Kwargs -> result Stats;
  cog_info : string -> TileMatrixSet -> result Info;
  cog_metadata : string -> scalar -> scalar -> Kwargs -> result Metadata
}.

(** ** [STACReader] *)

(** The dataclass fields, and the two attributes ([bounds], [assets]) that
    exist only once [__enter__] has set them. *)
Record STACReader : Type := mkSTACReader {
  filepath : string;
  item : option Item;
  tms : TileMatrixSet;
  minzoom : Z;
  maxzoom : Z;
  include_assets : option (gset string);
  exclude_assets : option (gset string);
  include_asset_types : option (gset string);
  exclude_asset_types : option (gset string);
  bounds : option (list scalar);
  assets : option (list string)
}.

(** [STACReader(filepath, item=item, ...)] with the dataclass defaults. *)
Definition new_STACReader (filepath : string) (item : option Item) : STACReader :=
  {| filepath := filepath; item := item; tms := TMS;
     minzoom := 0; maxzoom := 24;
     include_assets := None; exclude_assets := None;
     include_asset_types := Some DEFAULT_VALID_TYPE;
     exclude_asset_types := None;
     bounds := None; assets := None |}.

Definition set_item (self : STACReader) (it : Item) : STACReader :=
  {| filepath := filepath self; item := Some it; tms := tms self;
     minzoom := minzoom self; maxzoom := maxzoom self;
     include_assets := include_assets self;
     exclude_assets := exclude_assets self;
     include_asset_types := include_asset_types self;
     exclude_asset_types := exclude_asset_types self;
     bounds := bounds self; assets := assets self |}.

Definition set_bounds (self : STACReader) (b : list scalar) : STACReader :=
  {| filepath := filepath self; item := item self; tms := tms self;
     minzoom := minzoom self; maxzoom := maxzoom self;
     include_assets := include_assets self;
     exclude_assets := exclude_assets self;
     include_asset_types := include_asset_types self;
     exclude_asset_types := exclude_asset_types self;
     bounds := Some b; assets := assets self |}.

Definition set_assets (self : STACReader) (l : list string) : STACReader :=
  {| filepath := filepath self; item := item self; tms := tms self;
     minzoom := minzoom self; maxzoom := maxzoom self;
     include_assets := include_assets self;
     exclude_assets := exclude_assets self;
     include_asset_types := include_asset_types self;
     exclude_asset_types := exclude_asset_types self;
     bounds := bounds self; assets := Some l |}.

(** The [assets] argument of an operation: [None], one name, or a
    sequence of names. *)
Inductive AssetsArg : Type :=
| AssetsNone
| AssetsStr (s : string)
| AssetsSeq (l : list string).

(** [if isinstance(assets, str): assets = (assets,)] *)
Definition tuple_if_str (a : AssetsArg) : option (list string) :=
  match a with
  | AssetsNone => None
  | AssetsStr s => Some [s]
  | AssetsSeq l => Some l
  end.

(** Truthiness of [None] or a sequence, and of an optional string. *)
Definition seq_truthy (a : option (list string)) : bool :=
  match a with
  | Some (_ :: _) => true
  | _ => false
  end.

Definition str_truthy (s : option string) : bool :=
  match s with
  | Some (String _ _) => true
  | _ => false
  end.

Definition str_value (s : option string) : string := default "" s.

Section Reader.

Context `{COGReader, PyRe, PySet, Fetcher}.
Context `{NumExpr (np.plane scalar), NumExpr (list scalar)}.

(** [__enter__] assigns [item], then [bounds], then [assets]; an
    exception leaves the assignments made so far in place. *)
Definition __enter__ (self : STACReader) : STACReader * result unit :=
  let fetched :=
    match item self with
    | Some it => if item_truthy it then Ok it else fetch (filepath self)
    | None => fetch (filepath self)
    end in
  match fetched with
  | Raise e => (self, Raise e)
  | Ok it =>
      let self := set_item self it in
      match item_bbox it with
      | None => (self, Raise (KeyError "bbox"))
      | Some b =>
          let self := set_bounds self b in
          match _get_assets it (include_assets self) (exclude_assets self)
                            (include_asset_types self)
                            (exclude_asset_types self) with
          | Raise e => (self, Raise e)
          | Ok l => (set_assets self l, Ok ())
          end
      end
  end.

(** [__exit__]: [pass]. *)
Definition __exit__ (self : STACReader) : STACReader := self.

(** The validation loop of [_get_href]; [self.assets] is read at each
    iteration. *)
Fixpoint _get_href_validate (self : STACReader) (names : list string)
    : result unit :=
  match names with
  | [] => Ok ()
  | asset :: rest =>
      match assets self with
      | None => Raise (AttributeError "assets")
      | Some eligible =>
          if bool_decide (asset ∈ eligible)
          then _get_href_validate self rest
          else Raise (InvalidBandName
                        (String.append asset " is not a valid asset name."))
      end
  end.

(** [self.item["assets"][asset]["href"]] *)
Definition item_asset_href (self : STACReader) (asset : string)
    : result string :=
  match item self with
  | None => Raise (TypeError "'NoneType' object is not subscriptable")
  | Some it =>
      match item_assets it with
      | None => Raise (KeyError "assets")
      | Some d =>
          match dict_get d asset with
          | None => Raise (KeyError asset)
          | Some info =>
              match href info with
              | None => Raise (KeyError "href")
              | Some h => Ok h
              end
          end
      end
  end.

Definition _get_href (self : STACReader) (names : option (list string))
    : result (list string) :=
  match names with
  | None => Raise (TypeError "'NoneType' object is not iterable")
  | Some names =>
      _ ← _get_href_validate self names;
      collect (map (item_asset_href self) names)
  end.

Definition _parse_expression (self : STACReader) (expression : string)
    : result (list string) :=
  match assets self with
  | None => Raise (AttributeError "assets")
  | Some known =>
      found ← re_findall (str_join "|" (sorted_reverse known)) expression;
      Ok (list_of_set found)
  end.

(** [list(executor.map(worker, assets))]: every location is submitted,
    results come back in input order, the first failure in that order
    is raised. *)
Definition executor_map {A} (op : reader_op) (worker : string -> result A)
    (locations : list string) : io (list A) :=
  (map (fun a => (op, a)) locations, collect (map worker locations)).

(** The last four lines of [_tile], [_part] and [_preview]:
    the results are unzipped into [data] and [masks] (which fails on an
    empty list), then stacked and masked. *)
Definition assemble (results : list pixels) : result pixels :=
  match results with
  | [] => Raise (ValueError "not enough values to unpack (expected 2, got 0)")
  | (d0, m0) :: rest =>
      data ← np.concatenate (d0 :: rest.*1);
      all ← np.all_axis0 m0 rest.*2;
      Ok (data, np.astype_uint8_times_255 all)
  end.

Definition _tile (self : STACReader) (locations : list string)
    (tile_x tile_y tile_z : Z) (expression : option string)
    (kwargs : Kwargs) : io pixels :=
  results ← executor_map OpTile
    (fun asset => cog_tile asset (tms self) tile_x tile_y tile_z
                           expression kwargs) locations;
  io_lift (assemble results).

Definition _part (self : STACReader) (locations : list string)
    (bbox : list scalar) (max_size : option Z) (expression : option string)
    (kwargs : Kwargs) : io pixels :=
  results ← executor_map OpPart
    (fun asset => cog_part asset bbox max_size expression kwargs) locations;
  io_lift (assemble results).

Definition _preview (self : STACReader) (locations : list string)
    (expression : option string) (kwargs : Kwargs) : io pixels :=
  results ← executor_map OpPreview
    (fun asset => cog_preview asset expression kwargs) locations;
  io_lift (assemble results).

Definition _point (self : STACReader) (locations : list string)
    (lon lat : scalar) (expression : option string) (kwargs : Kwargs)
    : io (list (list scalar)) :=
  executor_map OpPoint
    (fun asset => cog_point asset lon lat expression kwargs) locations.

Definition _stats (self : STACReader) (locations : list string)
    (pmin pmax : scalar) (kwargs : Kwargs) : io (list Stats) :=
  executor_map OpStats
    (fun asset => cog_stats asset pmin pmax kwargs) locations.

Definition _info (self : STACReader) (locations : list string)
    : io (list Info) :=
  executor_map OpInfo (fun asset => cog_info asset (tms self)) locations.

Definition _metadata (self : STACReader) (locations : list string)
    (pmin pmax : scalar) (kwargs : Kwargs) : io (list Metadata) :=
  executor_map OpMetadata
    (fun asset => cog_metadata asset pmin pmax kwargs) locations.

Definition usage_error : exn :=
  Exception "assets must be passed either via expression or assets options.".

(** [tilesize] is accepted and not forwarded. *)
Definition tile (self : STACReader) (tile_x tile_y tile_z : Z)
    (tilesize : Z) (assets : AssetsArg)
    (expression asset_expression : option string) (kwargs : Kwargs)
    : io pixels :=
  let assets := tuple_if_str assets in
  assets ← (if str_truthy expression
            then io_lift (Some <$> _parse_expression self (str_value expression))
            else mret assets);
  if negb (seq_truthy assets) then io_raise usage_error
  else
    asset_urls ← io_lift (_get_href self assets);
    '(data, mask) ← _tile self asset_urls tile_x tile_y tile_z
                          asset_expression kwargs;
    data ← (if str_truthy expression
            then let blocks := str_split "," (str_value expression) in
                 io_lift (_apply_expression blocks (default [] assets) data)
            else mret data);
    mret (data, mask).

Definition part (self : STACReader) (bbox : list scalar)
    (max_size : option Z) (assets : AssetsArg)
    (expression asset_expression : option string) (kwargs : Kwargs)
    : io pixels :=
  let assets := tuple_if_str assets in
  assets ← (if str_truthy expression
            then io_lift (Some <$> _parse_expression self (str_value expression))
            else mret assets);
  if negb (seq_truthy assets) then io_raise usage_error
  else
    asset_urls ← io_lift (_get_href self assets);
    '(data, mask) ← _part self asset_urls bbox max_size
                          asset_expression kwargs;
    data ← (if str_truthy expression
            then let blocks := str_split "," (str_value expression) in
                 io_lift (_apply_expression blocks (default [] assets) data)
            else mret data);
    mret (data, mask).

Definition preview (self : STACReader) (assets : AssetsArg)
    (expression asset_expression : option string) (kwargs : Kwargs)
    : io pixels :=
  let assets := tuple_if_str assets in
  assets ← (if str_truthy expression
            then io_lift (Some <$> _parse_expression self (str_value expression))
            else mret assets);
  if negb (seq_truthy assets) then io_raise usage_error
  else
    asset_urls ← io_lift (_get_href self assets);
    '(data, mask) ← _preview self asset_urls asset_expression kwargs;
    data ← (if str_truthy expression
            then let blocks := str_split "," (str_value expression) in
                 io_lift (_apply_expression blocks (default [] assets) data)
            else mret data);
    mret (data, mask).

Definition point (self : STACReader) (lon lat : scalar)
    (assets : AssetsArg)
    (expression asset_expression : option string) (kwargs : Kwargs)
    : io (list (list scalar)) :=
  let assets := tuple_if_str assets in
  assets ← (if str_truthy expression
            then io_lift (Some <$> _parse_expression self (str_value expression))
            else mret assets);
  if negb (seq_truthy assets) then io_raise usage_error
  else
    asset_urls ← io_lift (_get_href self assets);
    point ← _point self asset_urls lon lat asset_expression kwargs;
    if str_truthy expression
    then let blocks := str_split "," (str_value expression) in
         io_lift (_apply_expression blocks (default [] assets) point)
    else mret point.

(** [{asset: results[ix] for ix, asset in enumerate(assets)}] *)
Definition by_asset {V} (names : list string) (results : list V)
    : result (gmap string V) :=
  py_dict <$>
    collect (imap (fun ix asset =>
                     match results !! ix with
                     | Some r => Ok (asset, r)
                     | None => Raise (IndexError "list index out of range")
                     end) names).

Definition stats (self : STACReader) (assets : AssetsArg)
    (pmin pmax : scalar) (kwargs : Kwargs) : io (gmap string Stats) :=
  let assets := tuple_if_str assets in
  asset_urls ← io_lift (_get_href self assets);
  stats ← _stats self asset_urls pmin pmax kwargs;
  io_lift (by_asset (default [] assets) stats).

Definition info (self : STACReader) (assets : AssetsArg)
    : io (gmap string Info) :=
  let assets := tuple_if_str assets in
  asset_urls ← io_lift (_get_href self assets);
  infos ← _info self asset_urls;
  io_lift (by_asset (default [] assets) infos).

Definition metadata (self : STACReader) (assets : AssetsArg)
    (pmin pmax : scalar) (kwargs : Kwargs) : io (gmap string Metadata) :=
  let assets := tuple_if_str assets in
  asset_urls ← io_lift (_get_href self assets);
  stats ← _metadata self asset_urls pmin pmax kwargs;
  io_lift (by_asset (default [] assets) stats).

End Reader.

(** ** The selection policy in the specification's words

    Three reject rules tried in sequence, then accept.  [given] says when
    an optional filter counts as given: the reading is a parameter so that
    the literal one ("is not [None]") and the one the code implements
    ("is truthy") can be told apart. *)

Definition given_literal (s : option (gset string)) : bool :=
  match s with Some _ => true | None => false end.

Definition given_nonempty (s : option (gset string)) : bool := set_truthy s.

Definition contains (s : option (gset string)) (x : string) : bool :=
  match s with Some s' => bool_decide (x ∈ s') | None => false end.

Definition lacks (s : option (gset string)) (x : string) : bool :=
  match s with Some s' => bool_decide (x ∉ s') | None => false end.

Definition selector_rejects (given : option (gset string) -> bool)
    (include exclude include_types exclude_types : option (gset string))
    (name media_type : string) : bool :=
  if contains exclude name then true
  else if contains exclude_types media_type
          || (given include && lacks include name) then true
  else if (given include_types && lacks include_types media_type)
          || (given include && lacks include name) then true
  else false.

(** The selector of the specification over a typed asset map, in the
    map's order. *)
Definition select (given : option (gset string) -> bool)
    (entries : list (string * AssetInfo))
    (include exclude include_types exclude_types : option (gset string))
    : list string :=
  omap (fun e : string * AssetInfo =>
          match type e.2 with
          | Some ty =>
              if selector_rejects given include exclude
                                  include_types exclude_types e.1 ty
              then None else Some e.1
          | None => None
          end) entries.

(** ** Vocabulary of the properties

    Definitions used to state the properties: they say what is observed
    of the code, they are not part of it. *)

(** Every asset descriptor carries a media type. *)
Definition typed (entries : list (string * AssetInfo)) : Prop :=
  Forall (fun e : string * AssetInfo => is_Some (type e.2)) entries.

(** Pixel [(i, j)] of a plane. *)
Definition get2 {A} (p : np.plane A) (i j : nat) : option A :=
  p !! i ≫= fun row => row !! j.

(** Whether a per-asset mask marks pixel [(i, j)] valid. *)
Definition valid_at (m : np.plane Z) (i j : nat) : bool :=
  match get2 m i j with
  | Some v => np.nonzero v
  | None => false
  end.

(** A per-asset result whose mask and bands all have [h] rows and [w]
    columns. *)
Definition well_shaped (h w : nat) (r : pixels) : Prop :=
  np.shape2 r.2 = Some (h, w)
  /\ Forall (fun band => np.shape2 band = Some (h, w)) r.1.

(** The message of the "not a valid asset name" error. *)
Definition invalid_name (asset : string) : exn :=
  InvalidBandName (String.append asset " is not a valid asset name.").


Section Vocabulary.

Context `{COGReader, PyRe, PySet, Fetcher}.
Context `{NumExpr (np.plane scalar), NumExpr (list scalar)}.

(** The names an operation works on: those parsed from a truthy
    expression, else the (tupled) [assets] argument. *)
Definition requested (self : STACReader) (assets : AssetsArg)
    (expression : option string) : result (option (list string)) :=
  if str_truthy expression
  then Some <$> _parse_expression self (str_value expression)
  else Ok (tuple_if_str assets).

(** What follows the read in a pixel operation. *)
Definition finish {A} `{NumExpr A, NanToNum A}
    (expression : option string) (names : option (list string))
    (data : list A) : result (list A) :=
  if str_truthy expression
  then _apply_expression (str_split "," (str_value expression))
                         (default [] names) data
  else Ok data.

(** The guard and the resolution that open every pixel operation. *)
Definition resolved (self : STACReader) (assets : AssetsArg)
    (expression : option string)
    : result (option (list string) * list string) :=
  names ← requested self assets expression;
  if negb (seq_truthy names) then Raise usage_error
  else hrefs ← _get_href self names; Ok (names, hrefs).


(** What a per-asset operation returns for [names] resolved to [hrefs]
    when [worker] is run on each location: the log lists the
    locations, the mapping has the requested names as keys, and each
    name maps to the result [worker] gave for that name's own
    location. *)
Definition per_asset {V} (self : STACReader) (op : reader_op)
    (worker : string -> result V) (names hrefs : list string)
    (out : io (gmap string V)) : Prop :=
  exists m,
    out = (map (pair op) hrefs, Ok m)
    /\ dom m = list_to_set names
    /\ forall n, n ∈ names ->
         exists h r,
           item_asset_href self n = Ok h /\ worker h = Ok r
           /\ m !! n = Some r.

End Vocabulary.

(** ** Fixtures: a two-band item and stand-ins for the collaborators *)

Module Fixture.

Definition tiff (location : string) : AssetInfo :=
  {| href := Some location; type := Some "image/tiff" |}.

Definition item : Item :=
  {| item_bbox := Some [SInt 23; SInt 31; SInt 24; SInt 32];
     item_assets :=
       Some [ ("thumbnail",
               {| href := Some "https://somewhereovertherainbow.io/preview.png";
                  type := Some "image/png" |});
              ("B01", tiff "https://somewhereovertherainbow.io/B01.tif");
              ("B02", tiff "https://somewhereovertherainbow.io/B02.tif") ];
     other_keys := ["type"; "stac_version"] |}.

Definition unopened : STACReader := new_STACReader "item.json" (Some item).

Definition one_band (v : Z) : pixels :=
  ([[[SInt v; SInt v]; [SInt v; SInt v]]], [[255; 255]; [255; 0]]%Z).

#[export] Instance cog : COGReader :=
  {| Kwargs := unit; Stats := Z; Info := string; Metadata := Z;
     cog_tile := fun loc _ _ _ _ _ _ =>
       Ok (one_band (Z.of_nat (String.length loc)));
     cog_part := fun loc _ _ _ _ =>
       Ok (one_band (Z.of_nat (String.length loc)));
     cog_preview := fun loc _ _ =>
       Ok (one_band (Z.of_nat (String.length loc)));
     cog_point := fun loc _ _ _ _ =>
       Ok [SInt (Z.of_nat (String.length loc))];
     cog_stats := fun loc _ _ _ => Ok (Z.of_nat (String.length loc));
     cog_info := fun loc _ => Ok loc;
     cog_metadata := fun loc _ _ _ => Ok (Z.of_nat (String.length loc)) |}.

(** An engine defined on the literal fragment only. *)
Definition literal_findall (pattern s : string) : result (list string) :=
  match re_literal_alternatives pattern with
  | Some alts => Ok (findall_alternatives alts s)
  | None => Raise (ExternalError "pattern outside the literal fragment")
  end.

#[export] Instance re : PyRe.
Proof.
  refine {| re_findall := literal_findall |}.
  intros pattern alts s Hp. unfold literal_findall. rewrite Hp. reflexivity.
Defined.

#[export] Instance set_order : PySet.
Proof.
  refine {| list_of_set := remove_dups |}.
  intros l. reflexivity.
Defined.

#[export] Instance fetcher : Fetcher :=
  {| fetch := fun loc =>
       if decide (loc = "item.json") then Ok item
       else Raise (ExternalError "no such document") |}.

(** An evaluator that ignores its operands and yields one row holding
    an infinity, a NaN and a finite value, as ["B01/B02"] does on
    suitable pixels. *)
Definition special_row : list scalar :=
  [SFloat (S754_infinity false); SFloat S754_nan;
   SFloat (S754_infinity true); SInt 7; SFloat (S754_finite false 3 0)].

#[export] Instance numexpr_plane : NumExpr (np.plane scalar) :=
  {| numexpr_evaluate := fun _ _ => Ok [special_row] |}.

#[export] Instance numexpr_point : NumExpr (list scalar) :=
  {| numexpr_evaluate := fun _ _ => Ok special_row |}.

(** The reader of the fixture item once entered. *)
Definition opened : STACReader := (@__enter__ fetcher unopened).1.

(** The same with [include_assets={"B1"}], a name the item does not
    have: its Eligible Asset List is empty. *)
Definition unopened_B1 : STACReader :=
  mkSTACReader "item.json" (Some item) TMS 0 24
               (Some {["B1"]}) None (Some DEFAULT_VALID_TYPE) None
               None None.

Definition opened_B1 : STACReader := (@__enter__ fetcher unopened_B1).1.

End Fixture.

(** ** Further vocabulary: selection and opening *)

(** The name filters alone: not excluded, and in the include set when
    that set is non-empty. *)
Definition name_passes (include exclude : option (gset string))
    (name : string) : bool :=
  negb (contains exclude name)
  && negb (given_nonempty include && lacks include name).

(** The reader's Eligible Asset List is the selection of the reader's own
    item under the reader's own filters, and its bounds are the item's. *)
Definition opened_reader (self : STACReader) : Prop :=
  exists it eligible,
    item self = Some it
    /\ item_truthy it = true
    /\ bounds self = item_bbox it
    /\ is_Some (bounds self)
    /\ _get_assets it (include_assets self) (exclude_assets self)
                   (include_asset_types self) (exclude_asset_types self)
       = Ok eligible
    /\ assets self = Some eligible.

(** The construction-time configuration of a reader. *)
Definition configuration (self : STACReader) :=
  (filepath self, tms self, minzoom self, maxzoom self,
   include_assets self, exclude_assets self,
   include_asset_types self, exclude_asset_types self).

(** A second fixture: an asset without a media type, excluded by name. *)
Definition untyped_item : Item :=
  {| item_bbox := Some [SInt 0; SInt 0; SInt 1; SInt 1];
     item_assets :=
       Some [ ("B01", {| href := Some "B01.tif"; type := Some "image/tiff" |});
              ("notes", {| href := Some "notes.txt"; type := None |}) ];
     other_keys := [] |}.

(** ** Further vocabulary: asset names as patterns *)

(** A name made of characters that mean themselves in a regular
    expression, the bar excluded. *)
Fixpoint literal_name (n : string) : bool :=
  match n with
  | EmptyString => true
  | String c n' =>
      negb (re_special c) && negb (bool_decide (c = "|"%char))
      && literal_name n'
  end.

(** "Not smaller than": the order of [sorted(..., reverse=True)]. *)
Definition not_below (x y : string) : Prop := String.ltb x y = false.


(** * Properties *)

(** ** General facts about [result], [collect] and the log *)

Lemma collect_Forall2 {A} (rs : list (result A)) (l : list A) :
  collect rs = Ok l <-> Forall2 (fun r a => r = Ok a) rs l.
Proof.
  revert l. induction rs as [|r rs IH]; intros l; simpl.
  - split.
    + intros [= <-]. constructor.
    + intros Hl. inversion Hl. reflexivity.
  - destruct r as [a|e]; simpl.
    + destruct (collect rs) as [l'|e'] eqn:E; simpl.
      * split.
        -- intros [= <-]. constructor; [reflexivity | by apply IH].
        -- intros Hl. inversion Hl as [|? b ? l2 Hr Hrest]; subst.
           injection Hr as <-. apply IH in Hrest. by injection Hrest as <-.
      * split; [discriminate|].
        intros Hl. inversion Hl as [|? b ? l2 Hr Hrest]; subst.
        apply IH in Hrest. discriminate.
    + split; [discriminate|].
      intros Hl. inversion Hl as [|? b ? l2 Hr Hrest]; subst. discriminate.
Qed.

Lemma collect_length {A} (rs : list (result A)) (l : list A) :
  collect rs = Ok l -> length l = length rs.
Proof.
  intros Hc. apply collect_Forall2 in Hc.
  symmetry. by eapply Forall2_length.
Qed.

(** ** The asset selector *)

Section Selector.

Variables include exclude include_types exclude_types : option (gset string).

Lemma and_in_contains s x : and_in s x = contains s x.
Proof.
  destruct s as [s|]; simpl; [|reflexivity].
  destruct (bool_decide (x ∈ s)) eqn:Hin.
  - apply bool_decide_eq_true in Hin.
    rewrite andb_true_r. apply negb_true_iff, bool_decide_eq_false.
    intros ->. set_solver.
  - apply andb_false_r.
Qed.

Lemma and_not_in_lacks s x :
  and_not_in s x = given_nonempty s && lacks s x.
Proof.
  destruct s as [s|]; simpl; [|reflexivity].
  by rewrite bool_decide_not.
Qed.

(** One turn of the loop decides as the three rules do. *)
Lemma loop_rules name ty :
  (if and_in exclude name then true
   else if and_in exclude_types ty || and_not_in include name then true
   else if and_not_in include_types ty || and_not_in include name then true
   else false)
  = selector_rejects given_nonempty include exclude
                     include_types exclude_types name ty.
Proof.
  unfold selector_rejects.
  by rewrite !and_in_contains, !and_not_in_lacks.
Qed.

Lemma _get_assets_loop_select entries :
  Forall (fun e : string * AssetInfo => is_Some (type e.2)) entries ->
  _get_assets_loop entries include exclude include_types exclude_types
  = Ok (select given_nonempty entries include exclude
               include_types exclude_types).
Proof.
  induction 1 as [|[name info] entries [ty Hty] _ IH]; [reflexivity|].
  simpl in Hty. unfold select. simpl. rewrite Hty, IH.
  pose proof (loop_rules name ty) as Hr.
  destruct (selector_rejects _ _ _ _ _ name ty);
    destruct (and_in exclude name); try discriminate; try reflexivity;
    destruct (and_in exclude_types ty || and_not_in include name);
    try discriminate; try reflexivity;
    destruct (and_not_in include_types ty || and_not_in include name);
    try discriminate; reflexivity.
Qed.

Lemma select_sublist given entries :
  select given entries include exclude include_types exclude_types
    `sublist_of` entries.*1.
Proof.
  unfold select.
  induction entries as [|[name info] entries IH]; simpl; [constructor|].
  destruct (type info) as [ty|]; simpl.
  - destruct (selector_rejects _ _ _ _ _ _ _); simpl;
      [by apply sublist_cons | by apply sublist_skip].
  - by apply sublist_cons.
Qed.

End Selector.

(** C3, as amended.  For every catalog item whose asset descriptors carry
    a media type, and every combination of the four optional filters,
    [_get_assets] returns (it does not raise, even when nothing is
    selected) the asset names, in the asset map's order and without
    duplicates, that pass the three reject rules tried in sequence, where
    a filter counts as given only when it is a non-empty set. *)
Theorem get_assets_selects
    (item : Item) (entries : list (string * AssetInfo))
    (include exclude include_types exclude_types : option (gset string)) :
  item_assets item = Some entries ->
  typed entries ->
  NoDup entries.*1 ->
  let names := select given_nonempty entries include exclude
                      include_types exclude_types in
  _get_assets item include exclude include_types exclude_types = Ok names
  /\ NoDup names
  /\ names `sublist_of` entries.*1
  /\ (forall n, n ∈ names <->
        exists info ty, (n, info) ∈ entries /\ type info = Some ty /\
          selector_rejects given_nonempty include exclude
                           include_types exclude_types n ty = false).
Proof.
  intros Hentries Htyped Hnodup names.
  assert (Hsub : names `sublist_of` entries.*1) by apply select_sublist.
  split; [|split; [|split]].
  - unfold _get_assets. rewrite Hentries.
    by apply _get_assets_loop_select.
  - by eapply sublist_NoDup.
  - exact Hsub.
  - intros n. unfold names, select. rewrite list_elem_of_omap. split.
    + intros [[n' info] [Hin Hsel]]. simpl in Hsel.
      destruct (type info) as [ty|] eqn:Hty; [|discriminate].
      destruct (selector_rejects _ _ _ _ _ n' ty) eqn:Hrej; [discriminate|].
      injection Hsel as <-. by exists info, ty.
    + intros (info & ty & Hin & Hty & Hrej).
      exists (n, info). split; [exact Hin|]. simpl. by rewrite Hty, Hrej.
Qed.

(** The test-suite case [include_assets={"B1"}]: nothing is selected and
    nothing is raised. *)
Lemma get_assets_selects_witness :
  let entries := default [] (item_assets Fixture.item) in
  let names := select given_nonempty entries (Some {["B1"]}) None
                      (Some DEFAULT_VALID_TYPE) None in
  _get_assets Fixture.item (Some {["B1"]}) None (Some DEFAULT_VALID_TYPE) None
    = Ok names
  /\ NoDup names
  /\ names `sublist_of` entries.*1
  /\ (forall n, n ∈ names <->
        exists info ty, (n, info) ∈ entries /\ type info = Some ty /\
          selector_rejects given_nonempty (Some {["B1"]}) None
                           (Some DEFAULT_VALID_TYPE) None n ty = false).
Proof.
  apply (get_assets_selects Fixture.item
           (default [] (item_assets Fixture.item))
           (Some {["B1"]}) None (Some DEFAULT_VALID_TYPE) None).
  - reflexivity.
  - repeat constructor; simpl; eexists; reflexivity.
  - apply (bool_decide_unpack _). vm_compute. exact I.
Defined.

(** C3, counterexample to the claim read literally.  With the include set
    given as the empty set, every rule that mentions it would reject each
    asset, yet the code selects all of them: an empty set is falsy and its
    filter is skipped. *)
Lemma get_assets_empty_include_counterexample :
  let entries := default [] (item_assets Fixture.item) in
  _get_assets Fixture.item (Some ∅) None None None
    = Ok ["thumbnail"; "B01"; "B02"]
  /\ select given_literal entries (Some ∅) None None None = []
  /\ _get_assets Fixture.item (Some ∅) None None None
     <> Ok (select given_literal entries (Some ∅) None None None).
Proof.
  split; [|split].
  - vm_compute. reflexivity.
  - vm_compute. reflexivity.
  - vm_compute. discriminate.
Qed.

(** ** Stacking and masking *)

Section Planes.

Context {A : Type}.
Implicit Types p q : np.plane A.

Lemma shape2_rect p h w :
  np.shape2 p = Some (h, w) <->
  length p = h /\ Forall (fun r => length r = w) p /\ (h = 0 -> w = 0)%nat.
Proof.
  unfold np.shape2. destruct p as [|r rs].
  - split.
    + intros [= <- <-]. by repeat split.
    + intros (<- & _ & Hw). simpl in Hw. by rewrite Hw.
  - destruct (forallb _ rs) eqn:Hall.
    + rewrite forallb_forall in Hall. split.
      * intros [= <- <-]. repeat split; [|discriminate].
        constructor; [reflexivity|]. apply Forall_forall. intros r' Hr'.
        apply Nat.eqb_eq, Hall. by apply list_elem_of_In.
      * intros (<- & [<- _]%Forall_cons & _). reflexivity.
    + split; [discriminate|]. intros (_ & Hrows & _).
      apply not_true_iff_false in Hall. destruct Hall.
      apply forallb_forall. intros r' Hr'. apply Nat.eqb_eq.
      apply Forall_cons in Hrows as [Hr Hrs].
      rewrite Forall_forall in Hrs. rewrite Hr.
      apply Hrs. by apply list_elem_of_In.
Qed.

Lemma get2_is_Some p h w i j :
  np.shape2 p = Some (h, w) -> (i < h)%nat -> (j < w)%nat ->
  is_Some (get2 p i j).
Proof.
  intros (Hlen & Hrows & _)%shape2_rect Hi Hj. unfold get2.
  destruct (lookup_lt_is_Some_2 p i) as [row Hrow]; [lia|].
  rewrite Hrow. simpl. apply lookup_lt_is_Some_2.
  rewrite Forall_forall in Hrows.
  rewrite (Hrows row); [lia|]. by eapply list_elem_of_lookup_2.
Qed.

Lemma get2_map {B} (f : A -> B) p i j :
  get2 (map (map f) p) i j = f <$> get2 p i j.
Proof.
  unfold get2. change (map (map f) p) with (map f <$> p).
  rewrite list_lookup_fmap. destruct (p !! i) as [row|]; simpl; [|done].
  change (map f row) with (f <$> row). by rewrite list_lookup_fmap.
Qed.

Lemma shape2_map {B} (f : A -> B) p :
  np.shape2 (map (map f) p) = np.shape2 p.
Proof.
  destruct p as [|r rs]; [reflexivity|]. unfold np.shape2. simpl.
  rewrite !length_map.
  replace (forallb _ (map (map f) rs))
    with (forallb (fun r' => (length r' =? length r)%nat) rs);
    [reflexivity|].
  induction rs as [|r' rs IH]; simpl; [reflexivity|].
  by rewrite length_map, IH.
Qed.

Lemma same_shape_spec {B} p (q : np.plane B) :
  np.same_shape p q = true <->
  exists s, np.shape2 p = Some s /\ np.shape2 q = Some s.
Proof.
  unfold np.same_shape.
  destruct (np.shape2 p) as [s|], (np.shape2 q) as [s'|].
  - rewrite bool_decide_eq_true. split; [intros ->; eauto|].
    intros (s0 & [= ->] & [= ->]). reflexivity.
  - split; [discriminate | by intros (? & _ & ?)].
  - split; [discriminate | by intros (? & ? & _)].
  - split; [discriminate | by intros (? & ? & _)].
Qed.

End Planes.

Lemma get2_logical_and (a b : np.plane bool) i j :
  get2 (np.logical_and a b) i j
  = get2 a i j ≫= fun x => get2 b i j ≫= fun y => Some (x && y).
Proof.
  unfold get2, np.logical_and. rewrite lookup_zip_with.
  destruct (a !! i) as [ra|]; simpl; [|done].
  destruct (b !! i) as [rb|]; simpl.
  - rewrite lookup_zip_with. destruct (ra !! j); simpl; [|done].
    by destruct (rb !! j).
  - by destruct (ra !! j).
Qed.

Lemma shape2_logical_and (a b : np.plane bool) h w :
  np.shape2 a = Some (h, w) -> np.shape2 b = Some (h, w) ->
  np.shape2 (np.logical_and a b) = Some (h, w).
Proof.
  intros (Ha & Hra & Hz)%shape2_rect (Hb & Hrb & _)%shape2_rect.
  apply shape2_rect. unfold np.logical_and. repeat split; [| |exact Hz].
  - rewrite length_zip_with. lia.
  - clear Ha Hb Hz. revert b Hrb.
    induction Hra as [|ra a Hlen _ IH]; intros b Hrb; [constructor|].
    destruct Hrb as [|rb b Hlen' Hrb]; simpl; constructor.
    + rewrite length_zip_with. lia.
    + by apply IH.
Qed.

(** Reducing [logical_and] over planes of one shape: the shape is kept and
    each pixel is the conjunction of the pixels below it. *)
Lemma foldl_logical_and (ps : list (np.plane bool)) (acc : np.plane bool) h w :
  np.shape2 acc = Some (h, w) ->
  Forall (fun p => np.shape2 p = Some (h, w)) ps ->
  np.shape2 (foldl np.logical_and acc ps) = Some (h, w)
  /\ forall i j, (i < h)%nat -> (j < w)%nat ->
       get2 (foldl np.logical_and acc ps) i j
       = Some (default false (get2 acc i j)
               && forallb (fun p => default false (get2 p i j)) ps).
Proof.
  intros Hacc Hps. revert acc Hacc.
  induction Hps as [|p ps Hp _ IH]; intros acc Hacc; simpl.
  - split; [exact Hacc|]. intros i j Hi Hj.
    destruct (get2_is_Some acc h w i j Hacc Hi Hj) as [x ->].
    simpl. by rewrite andb_true_r.
  - destruct (IH (np.logical_and acc p)) as [Hshape Hpix];
      [by apply shape2_logical_and|].
    split; [exact Hshape|]. intros i j Hi Hj.
    rewrite (Hpix i j Hi Hj), get2_logical_and.
    destruct (get2_is_Some acc h w i j Hacc Hi Hj) as [x ->].
    destruct (get2_is_Some p h w i j Hp Hi Hj) as [y ->].
    simpl. by rewrite andb_assoc.
Qed.


Lemma default_valid_at (m : np.plane Z) i j :
  default false (get2 (map (map np.nonzero) m) i j) = valid_at m i j.
Proof.
  rewrite get2_map. unfold valid_at. by destruct (get2 m i j).
Qed.

Lemma forallb_valid_at (ms : list (np.plane Z)) i j :
  forallb (fun p => default false (get2 p i j))
          (map (map (map np.nonzero)) ms)
  = forallb (fun m => valid_at m i j) ms.
Proof.
  induction ms as [|m ms IH]; simpl; [reflexivity|].
  by rewrite default_valid_at, IH.
Qed.

Lemma concatenate_same_shape {A} (arrays : list (list (np.plane A))) h w :
  arrays <> [] ->
  Forall (Forall (fun band => np.shape2 band = Some (h, w))) arrays ->
  np.concatenate arrays = Ok (concat arrays).
Proof.
  intros Hne Hall. unfold np.concatenate.
  destruct arrays as [|a arrays]; [done|].
  assert (Hbands : Forall (fun band => np.shape2 band = Some (h, w))
                          (concat (a :: arrays))) by by apply Forall_concat.
  destruct (concat (a :: arrays)) as [|b0 bands] eqn:Hc; [reflexivity|].
  replace (forallb (np.same_shape b0) (b0 :: bands)) with true;
    [reflexivity|].
  symmetry. apply forallb_forall. intros b Hb%list_elem_of_In.
  apply same_shape_spec. exists (h, w).
  rewrite Forall_forall in Hbands. split; apply Hbands; [left | exact Hb].
Qed.

Lemma all_axis0_same_shape (m0 : np.plane Z) (ms : list (np.plane Z)) h w :
  Forall (fun m => np.shape2 m = Some (h, w)) (m0 :: ms) ->
  np.all_axis0 m0 ms
  = Ok (foldl np.logical_and (map (map np.nonzero) m0)
              (map (map (map np.nonzero)) ms)).
Proof.
  intros Hall. unfold np.all_axis0.
  replace (forallb (np.same_shape m0) (m0 :: ms)) with true; [reflexivity|].
  symmetry. apply forallb_forall. intros m Hm%list_elem_of_In.
  apply same_shape_spec. exists (h, w).
  rewrite Forall_forall in Hall. split; apply Hall; [left | exact Hm].
Qed.

Section Merge.

Context `{COGReader}.


End Merge.


(** ** Normal forms of the operations *)

Ltac io_unfold :=
  unfold mbind, io_bind, io_lift, io_raise, mret, io_ret, fmap, result_fmap,
         result_bind, rbind.

Section Operations.

Context `{COGReader, PyRe, PySet, Fetcher}.
Context `{NumExpr (np.plane scalar), NumExpr (list scalar)}.

Lemma tile_unfold self x y z tilesize assets expression asset_expression kwargs :
  tile self x y z tilesize assets expression asset_expression kwargs
  = match resolved self assets expression with
    | Raise e => ([], Raise e)
    | Ok (names, hrefs) =>
        match _tile self hrefs x y z asset_expression kwargs with
        | (log, Raise e) => (log, Raise e)
        | (log, Ok (stack, mask)) =>
            (log, data ← finish expression names stack; Ok (data, mask))
        end
    end.
Proof.
  unfold tile, resolved, requested, finish.
  destruct (str_truthy expression); io_unfold.
  - destruct (_parse_expression self _) as [names|e]; [|reflexivity].
    destruct (negb (seq_truthy (Some names))); [reflexivity|].
    destruct (_get_href self (Some names)) as [hrefs|e]; [|reflexivity].
    simpl. destruct (_tile self hrefs x y z asset_expression kwargs)
      as [log [[stack mask]|e]]; simpl; [|reflexivity].
    destruct (_apply_expression _ _ _); simpl; by rewrite ?app_nil_r.
  - destruct (negb (seq_truthy (tuple_if_str assets))); [reflexivity|].
    destruct (_get_href self (tuple_if_str assets)) as [hrefs|e];
      [|reflexivity].
    simpl. destruct (_tile self hrefs x y z asset_expression kwargs)
      as [log [[stack mask]|e]]; simpl; [|reflexivity].
    by rewrite ?app_nil_r.
Qed.

Lemma part_unfold self bbox max_size assets expression asset_expression kwargs :
  part self bbox max_size assets expression asset_expression kwargs
  = match resolved self assets expression with
    | Raise e => ([], Raise e)
    | Ok (names, hrefs) =>
        match _part self hrefs bbox max_size asset_expression kwargs with
        | (log, Raise e) => (log, Raise e)
        | (log, Ok (stack, mask)) =>
            (log, data ← finish expression names stack; Ok (data, mask))
        end
    end.
Proof.
  unfold part, resolved, requested, finish.
  destruct (str_truthy expression); io_unfold.
  - destruct (_parse_expression self _) as [names|e]; [|reflexivity].
    destruct (negb (seq_truthy (Some names))); [reflexivity|].
    destruct (_get_href self (Some names)) as [hrefs|e]; [|reflexivity].
    simpl. destruct (_part self hrefs bbox max_size asset_expression kwargs)
      as [log [[stack mask]|e]]; simpl; [|reflexivity].
    destruct (_apply_expression _ _ _); simpl; by rewrite ?app_nil_r.
  - destruct (negb (seq_truthy (tuple_if_str assets))); [reflexivity|].
    destruct (_get_href self (tuple_if_str assets)) as [hrefs|e];
      [|reflexivity].
    simpl. destruct (_part self hrefs bbox max_size asset_expression kwargs)
      as [log [[stack mask]|e]]; simpl; [|reflexivity].
    by rewrite ?app_nil_r.
Qed.

Lemma preview_unfold self assets expression asset_expression kwargs :
  preview self assets expression asset_expression kwargs
  = match resolved self assets expression with
    | Raise e => ([], Raise e)
    | Ok (names, hrefs) =>
        match _preview self hrefs asset_expression kwargs with
        | (log, Raise e) => (log, Raise e)
        | (log, Ok (stack, mask)) =>
            (log, data ← finish expression names stack; Ok (data, mask))
        end
    end.
Proof.
  unfold preview, resolved, requested, finish.
  destruct (str_truthy expression); io_unfold.
  - destruct (_parse_expression self _) as [names|e]; [|reflexivity].
    destruct (negb (seq_truthy (Some names))); [reflexivity|].
    destruct (_get_href self (Some names)) as [hrefs|e]; [|reflexivity].
    simpl. destruct (_preview self hrefs asset_expression kwargs)
      as [log [[stack mask]|e]]; simpl; [|reflexivity].
    destruct (_apply_expression _ _ _); simpl; by rewrite ?app_nil_r.
  - destruct (negb (seq_truthy (tuple_if_str assets))); [reflexivity|].
    destruct (_get_href self (tuple_if_str assets)) as [hrefs|e];
      [|reflexivity].
    simpl. destruct (_preview self hrefs asset_expression kwargs)
      as [log [[stack mask]|e]]; simpl; [|reflexivity].
    by rewrite ?app_nil_r.
Qed.

Lemma point_unfold self lon lat assets expression asset_expression kwargs :
  point self lon lat assets expression asset_expression kwargs
  = match resolved self assets expression with
    | Raise e => ([], Raise e)
    | Ok (names, hrefs) =>
        match _point self hrefs lon lat asset_expression kwargs with
        | (log, Raise e) => (log, Raise e)
        | (log, Ok values) => (log, finish expression names values)
        end
    end.
Proof.
  unfold point, resolved, requested, finish.
  destruct (str_truthy expression); io_unfold.
  - destruct (_parse_expression self _) as [names|e]; [|reflexivity].
    destruct (negb (seq_truthy (Some names))); [reflexivity|].
    destruct (_get_href self (Some names)) as [hrefs|e]; [|reflexivity].
    cbv beta iota.
    destruct (_point self hrefs lon lat asset_expression kwargs)
      as [log [values|e]]; cbv beta iota; [|reflexivity].
    by rewrite ?app_nil_r.
  - destruct (negb (seq_truthy (tuple_if_str assets))); [reflexivity|].
    destruct (_get_href self (tuple_if_str assets)) as [hrefs|e];
      [|reflexivity].
    cbv beta iota.
    destruct (_point self hrefs lon lat asset_expression kwargs)
      as [log [values|e]]; cbv beta iota; [|reflexivity].
    by rewrite ?app_nil_r.
Qed.

End Operations.

(** ** Asset resolution *)

Lemma collect_Raise {A} (rs : list (result A)) (e : exn) :
  collect rs = Raise e -> Raise e ∈ rs.
Proof.
  induction rs as [|r rs IH]; simpl; [discriminate|].
  destruct r as [a|e']; simpl.
  - destruct (collect rs) as [l|e'']; simpl; [discriminate|].
    intros [= ->]. right. by apply IH.
  - intros [= ->]. left.
Qed.

Section Resolution.

Context `{COGReader, PyRe, PySet, Fetcher}.
Context `{NumExpr (np.plane scalar), NumExpr (list scalar)}.

(** The validation loop either accepts every name or stops at the
    first one that is not eligible. *)
Lemma _get_href_validate_cases self eligible names :
  assets self = Some eligible ->
  (Forall (fun n => n ∈ eligible) names
   /\ _get_href_validate self names = Ok ())
  \/ (exists before n after,
        names = (before ++ n :: after)%list
        /\ Forall (fun n => n ∈ eligible) before
        /\ (n ∉ eligible)
        /\ _get_href_validate self names = Raise (invalid_name n)).
Proof.
  intros Hassets.
  induction names as [|n names IH]; simpl.
  - left. by split.
  - rewrite Hassets. case_bool_decide as Hn.
    + destruct IH as [[Hall Hok] | (before & m & after & -> & Hb & Hm & Hr)].
      * left. split; [by constructor | exact Hok].
      * right. exists (n :: before), m, after.
        repeat split; [by constructor | exact Hm | exact Hr].
    + right. by exists [], n, names.
Qed.

Lemma item_asset_href_not_invalid self n msg :
  item_asset_href self n <> Raise (InvalidBandName msg).
Proof.
  unfold item_asset_href.
  destruct (item self) as [it|]; [|discriminate].
  destruct (item_assets it) as [d|]; [|discriminate].
  destruct (dict_get d n) as [info|]; [|discriminate].
  destruct (href info); discriminate.
Qed.

(** What a successful [__enter__] leaves in the reader. *)
Lemma enter_ok self0 self :
  __enter__ self0 = (self, Ok ()) ->
  exists it eligible,
    item self = Some it
    /\ bounds self = item_bbox it
    /\ _get_assets it (include_assets self0) (exclude_assets self0)
                   (include_asset_types self0) (exclude_asset_types self0)
       = Ok eligible
    /\ assets self = Some eligible.
Proof.
  unfold __enter__.
  destruct (match item self0 with
            | Some it => if item_truthy it then Ok it
                         else fetch (filepath self0)
            | None => fetch (filepath self0)
            end) as [it|e]; [|discriminate].
  destruct (item_bbox it) as [b|] eqn:Hb; [|discriminate]. simpl.
  destruct (_get_assets it _ _ _ _) as [l|e] eqn:Hl; [|discriminate].
  intros [= <-]. exists it, l. by rewrite Hb.
Qed.

Lemma _get_assets_names it include exclude include_types exclude_types l :
  _get_assets it include exclude include_types exclude_types = Ok l ->
  forall n, n ∈ l -> n ∈ asset_names it.
Proof.
  unfold _get_assets, asset_names.
  destruct (item_assets it) as [entries|]; [|discriminate].
  revert l. induction entries as [|[name info] entries IH]; intros l; simpl.
  - intros [= <-] n. by intros ?%elem_of_nil.
  - destruct (type info) as [ty|]; [|discriminate].
    assert (Hskip : _get_assets_loop entries include exclude
                      include_types exclude_types = Ok l ->
                    forall n, n ∈ l -> n ∈ name :: entries.*1).
    { intros Hl n Hn. right. by eapply IH. }
    destruct (and_in exclude name); [exact Hskip|].
    destruct (_ || _); [exact Hskip|].
    destruct (_ || _); [exact Hskip|].
    destruct (_get_assets_loop entries _ _ _ _) as [l'|e];
      [|discriminate].
    simpl. intros [= <-] n [->|Hn]%elem_of_cons; [left|].
    right. by eapply IH.
Qed.

End Resolution.

Section ResolutionTheorem.

Context `{COGReader, PyRe, PySet, Fetcher}.
Context `{NumExpr (np.plane scalar), NumExpr (list scalar)}.

Lemma _get_href_eq self names :
  _get_href self (Some names)
  = match _get_href_validate self names with
    | Ok _ => collect (map (item_asset_href self) names)
    | Raise e => Raise e
    end.
Proof. reflexivity. Qed.


End ResolutionTheorem.


(** ** The expression parser *)

Lemma prefix_empty (s : string) : String.prefix "" s = true.
Proof. by destruct s. Qed.

(** The empty pattern matches the empty string at every position. *)
Lemma findall_empty_pattern (s : string) :
  findall_alternatives [""] s = replicate (S (String.length s)) "".
Proof.
  assert (Hhere : forall s', matches_here [""] s' = ([""], 0)%nat).
  { intros s'. unfold matches_here. cbn [match_alt].
    rewrite prefix_empty. reflexivity. }
  unfold findall_alternatives.
  induction s as [|c s IH].
  - reflexivity.
  - change (findall_scan [""] (String c s) 0)
      with (let '(found, n) := matches_here [""] (String c s) in
            (found ++ findall_scan [""] s (pred n))%list).
    rewrite Hhere. cbn [pred]. rewrite IH. reflexivity.
Qed.

Lemma remove_dups_replicate (n : nat) (x : string) :
  remove_dups (replicate (S n) x) = [x].
Proof.
  induction n as [|n IH]; [reflexivity|].
  change (replicate (S (S n)) x) with (x :: replicate (S n) x).
  cbn [remove_dups]. unfold decide_rel.
  destruct (list_elem_of_dec x (replicate (S n) x)) as [_|Hn]; [exact IH|].
  destruct Hn. left.
Qed.

Lemma Permutation_two (l : list string) (a b : string) :
  l ≡ₚ [a; b] -> l = [a; b] \/ l = [b; a].
Proof.
  intros Hp. pose proof (Permutation_length Hp) as Hlen.
  destruct l as [|x [|y [|z l]]]; try discriminate.
  assert (Hx : x ∈ [a; b]) by (rewrite <- Hp; left).
  assert (Hy : y ∈ [a; b]) by (rewrite <- Hp; right; left).
  assert (Ha : a ∈ [x; y]) by (rewrite Hp; left).
  assert (Hb : b ∈ [x; y]) by (rewrite Hp; right; left).
  rewrite !elem_of_cons, elem_of_nil in Hx, Hy, Ha, Hb.
  destruct Hx as [->|[->|[]]], Hy as [->|[->|[]]]; auto.
  - destruct Hb as [->|[->|[]]]; auto.
  - destruct Ha as [->|[->|[]]]; auto.
Qed.

Section Parser.

Context `{PyRe, PySet}.

(** C4.  With known names "B1" and "B10" (in either catalog order) the
    pattern is "B10|B1" and parsing "B10/B1" returns the two names,
    each once; scanning with the alternatives in that order finds
    "B10" then "B1", whereas the order "B1", "B10" would find "B1"
    twice. *)
Theorem parse_expression_overlapping (self : STACReader)
    (known : list string) :
  assets self = Some known ->
  known ≡ₚ ["B1"; "B10"] ->
  str_join "|" (sorted_reverse known) = "B10|B1"
  /\ (exists names,
        _parse_expression self "B10/B1" = Ok names
        /\ names ≡ₚ ["B1"; "B10"])
  /\ findall_alternatives ["B10"; "B1"] "B10/B1" = ["B10"; "B1"]
  /\ findall_alternatives ["B1"; "B10"] "B10/B1" = ["B1"; "B1"].
Proof.
  intros Hassets Hknown.
  assert (Hpattern : str_join "|" (sorted_reverse known) = "B10|B1").
  { destruct (Permutation_two _ _ _ Hknown) as [-> | ->]; reflexivity. }
  split; [exact Hpattern|]. split; [|split; reflexivity].
  unfold _parse_expression. rewrite Hassets, Hpattern.
  rewrite (re_findall_literal "B10|B1" ["B10"; "B1"]) by reflexivity.
  eexists. split; [reflexivity|].
  rewrite list_of_set_perm.
  change (findall_alternatives ["B10"; "B1"] "B10/B1") with ["B10"; "B1"].
  change (remove_dups ["B10"; "B1"]) with ["B10"; "B1"].
  apply Permutation_swap.
Qed.

End Parser.

(** C4, at a reader whose catalog lists "B1" before "B10". *)
Lemma parse_expression_overlapping_witness :
  let self := set_assets Fixture.unopened ["B1"; "B10"] in
  @_parse_expression Fixture.re Fixture.set_order self "B10/B1"
    = Ok ["B10"; "B1"]
  /\ exists names,
       @_parse_expression Fixture.re Fixture.set_order self "B10/B1" = Ok names
       /\ names ≡ₚ ["B1"; "B10"].
Proof.
  intros self. split; [vm_compute; reflexivity|].
  destruct (@parse_expression_overlapping Fixture.re Fixture.set_order
              self ["B1"; "B10"] eq_refl (reflexivity _))
    as (_ & Hparse & _).
  exact Hparse.
Defined.

Section Guards.

Context `{COGReader, PyRe, PySet, Fetcher}.
Context `{NumExpr (np.plane scalar), NumExpr (list scalar)}.

Lemma resolved_usage_error self assets expression :
  requested self assets expression = Ok None
  \/ requested self assets expression = Ok (Some []) ->
  resolved self assets expression = Raise usage_error.
Proof. unfold resolved. by intros [-> | ->]. Qed.

(** C5, what the code does instead.  When the reader knows no asset
    name the pattern is the empty string, which matches at every
    position of every expression: the parser returns the one-element
    list holding the empty string, not the empty list, and an operation
    given a non-empty expression then fails in resolution with the
    "not a valid asset name" error for the empty name rather than with
    the usage error. *)
Theorem parse_expression_no_known_names (self : STACReader) :
  assets self = Some [] ->
  (forall expression, _parse_expression self expression = Ok [""])
  /\ (forall assets expression, str_truthy expression = true ->
        (forall x y z tilesize asset_expression kwargs,
           tile self x y z tilesize assets expression
                asset_expression kwargs = ([], Raise (invalid_name "")))
        /\ (forall bbox max_size asset_expression kwargs,
              part self bbox max_size assets expression
                   asset_expression kwargs = ([], Raise (invalid_name "")))
        /\ (forall asset_expression kwargs,
              preview self assets expression asset_expression kwargs
              = ([], Raise (invalid_name "")))
        /\ (forall lon lat asset_expression kwargs,
              point self lon lat assets expression
                    asset_expression kwargs = ([], Raise (invalid_name "")))).
Proof.
  intros Hassets.
  assert (Hparse : forall expression,
            _parse_expression self expression = Ok [""]).
  { intros expression. unfold _parse_expression. rewrite Hassets.
    change (str_join "|" (sorted_reverse [])) with "".
    rewrite (re_findall_literal "" [""]) by reflexivity.
    rewrite findall_empty_pattern.
    change (mbind ?k (Ok ?a)) with (k a). cbv beta. f_equal.
    apply Permutation_singleton_r.
    by rewrite list_of_set_perm, remove_dups_replicate. }
  split; [exact Hparse|].
  intros assets0 expression Htruthy.
  assert (Hres : resolved self assets0 expression
                 = Raise (invalid_name "")).
  { unfold resolved, requested. rewrite Htruthy, Hparse.
    cbn. by rewrite Hassets. }
  repeat split; intros.
  - by rewrite tile_unfold, Hres.
  - by rewrite part_unfold, Hres.
  - by rewrite preview_unfold, Hres.
  - by rewrite point_unfold, Hres.
Qed.

(** C8.  A pixel-producing operation (tile, part, preview, point) that
    is given neither asset names nor an expression, or whose expression
    yields no asset name, raises the usage error, and the read log is
    empty. *)
Theorem no_assets_usage_error (self : STACReader) (assets : AssetsArg)
    (expression : option string) :
  (str_truthy expression = false
   /\ (assets = AssetsNone \/ assets = AssetsSeq []))
  \/ (str_truthy expression = true
      /\ _parse_expression self (str_value expression) = Ok []) ->
  (forall x y z tilesize asset_expression kwargs,
     tile self x y z tilesize assets expression asset_expression kwargs
     = ([], Raise usage_error))
  /\ (forall bbox max_size asset_expression kwargs,
        part self bbox max_size assets expression asset_expression kwargs
        = ([], Raise usage_error))
  /\ (forall asset_expression kwargs,
        preview self assets expression asset_expression kwargs
        = ([], Raise usage_error))
  /\ (forall lon lat asset_expression kwargs,
        point self lon lat assets expression asset_expression kwargs
        = ([], Raise usage_error)).
Proof.
  intros Hnone.
  assert (Hres : resolved self assets expression = Raise usage_error).
  { apply resolved_usage_error. unfold requested.
    destruct Hnone as [[-> [-> | ->]] | [-> ->]]; auto. }
  repeat split; intros.
  - by rewrite tile_unfold, Hres.
  - by rewrite part_unfold, Hres.
  - by rewrite preview_unfold, Hres.
  - by rewrite point_unfold, Hres.
Qed.

End Guards.

(** C5, at the reader of the test suite's [include_assets={"B1"}] case,
    whose Eligible Asset List is empty. *)
Lemma parse_expression_no_known_names_witness :
  assets Fixture.opened_B1 = Some []
  /\ @_parse_expression Fixture.re Fixture.set_order Fixture.opened_B1
        "B01/B02" = Ok [""]
  /\ @tile Fixture.cog Fixture.re Fixture.set_order Fixture.numexpr_plane
           Fixture.opened_B1 0 0 0 256 AssetsNone (Some "B01/B02") None ()
     = ([], Raise (InvalidBandName " is not a valid asset name.")).
Proof.
  assert (Hassets : assets Fixture.opened_B1 = Some [])
    by (vm_compute; reflexivity).
  destruct (@parse_expression_no_known_names Fixture.cog Fixture.re
              Fixture.set_order Fixture.numexpr_plane Fixture.numexpr_point
              Fixture.opened_B1 Hassets) as [Hparse Hops].
  split; [exact Hassets|]. split; [apply Hparse|].
  destruct (Hops AssetsNone (Some "B01/B02") eq_refl) as [Htile _].
  apply Htile.
Defined.

(** C8, at the fixture reader: no assets and no expression, and an
    expression that names no asset. *)
Lemma no_assets_usage_error_witness :
  @tile Fixture.cog Fixture.re Fixture.set_order Fixture.numexpr_plane
        Fixture.opened 0 0 0 256 AssetsNone None None ()
  = ([], Raise usage_error)
  /\ @point Fixture.cog Fixture.re Fixture.set_order Fixture.numexpr_point
            Fixture.opened (SInt 23) (SInt 32) AssetsNone (Some "1+1") None ()
     = ([], Raise usage_error).
Proof.
  split.
  - destruct (@no_assets_usage_error Fixture.cog Fixture.re
                Fixture.set_order Fixture.numexpr_plane Fixture.numexpr_point
                Fixture.opened AssetsNone None) as [Htile _].
    + left. split; [reflexivity | by left].
    + apply Htile.
  - destruct (@no_assets_usage_error Fixture.cog Fixture.re
                Fixture.set_order Fixture.numexpr_plane Fixture.numexpr_point
                Fixture.opened AssetsNone (Some "1+1")) as (_ & _ & _ & Hpoint).
    + right. split; [reflexivity | vm_compute; reflexivity].
    + apply Hpoint.
Defined.

(** ** Expression application *)

Section Expression.

Context {A : Type} `{NumExpr A, NanToNum A}.


End Expression.

Section ExpressionDriven.

Context `{COGReader, PyRe, PySet, Fetcher}.
Context `{NumExpr (np.plane scalar), NumExpr (list scalar)}.





End ExpressionDriven.


(** ** Non-finite values *)

Section NonFinite.

Context `{NumExpr (np.plane scalar)}.


End NonFinite.



(** ** The per-asset mappings of stats, info and metadata *)

Lemma py_dict_snoc {V} (pairs : list (string * V)) (k : string) (v : V) :
  py_dict (pairs ++ [(k, v)]) = <[k := v]> (py_dict pairs).
Proof. unfold py_dict. by rewrite foldl_snoc. Qed.

Lemma py_dict_dom {V} (pairs : list (string * V)) :
  dom (py_dict pairs) = list_to_set pairs.*1.
Proof.
  induction pairs as [|[k v] pairs IH] using rev_ind; [apply dom_empty_L|].
  rewrite py_dict_snoc, dom_insert_L, IH, fmap_app, list_to_set_app_L.
  simpl. rewrite (right_id_L ∅ (∪)). apply (comm_L (∪)).
Qed.

(** When all the values paired with a key agree, that value is the one
    the dict holds. *)
Lemma py_dict_lookup {V} (pairs : list (string * V)) (k : string) (v : V) :
  (forall v', (k, v') ∈ pairs -> v' = v) ->
  (k, v) ∈ pairs ->
  py_dict pairs !! k = Some v.
Proof.
  induction pairs as [|[k' v'] pairs IH] using rev_ind.
  - by intros _ ?%elem_of_nil.
  - intros Hagree Hin. rewrite py_dict_snoc.
    destruct (decide (k' = k)) as [->|Hne].
    + rewrite lookup_insert_eq. f_equal. apply Hagree.
      apply elem_of_app. right. left.
    + rewrite lookup_insert_ne by exact Hne.
      apply IH.
      * intros v'' Hv''. apply Hagree. apply elem_of_app. by left.
      * apply elem_of_app in Hin as [Hin | Hin]; [exact Hin|].
        apply list_elem_of_singleton in Hin. congruence.
Qed.

Lemma by_asset_zip {V} (names : list string) (results : list V) :
  length names = length results ->
  by_asset names results = Ok (py_dict (zip names results)).
Proof.
  intros Hlen. unfold by_asset.
  match goal with
  | |- _ <$> ?c = _ => assert (Hc : c = Ok (zip names results))
  end.
  { apply collect_Forall2, Forall2_same_length_lookup_2.
    - rewrite length_imap, length_zip_with. lia.
    - intros i x y Hx Hy.
      rewrite list_lookup_imap in Hx. rewrite lookup_zip_with in Hy.
      destruct (names !! i) as [n|]; simpl in *; [|discriminate].
      destruct (results !! i) as [r|]; simpl in *; [|discriminate].
      congruence. }
  by rewrite Hc.
Qed.

(** The mapping built from names whose locations are [hrefs] and from
    the per-location results of [worker]: its keys are the requested
    names and each name maps to the result of its own location. *)
Lemma by_asset_spec {V} (href_of : string -> result string)
    (worker : string -> result V)
    (names hrefs : list string) (results : list V) :
  Forall2 (fun n h => href_of n = Ok h) names hrefs ->
  collect (map worker hrefs) = Ok results ->
  exists m,
    by_asset names results = Ok m
    /\ dom m = list_to_set names
    /\ forall n, n ∈ names ->
         exists h r, href_of n = Ok h /\ worker h = Ok r /\ m !! n = Some r.
Proof.
  intros Hhrefs Hresults.
  apply collect_Forall2, Forall2_fmap_l in Hresults.
  pose proof (Forall2_length _ _ _ Hhrefs) as Hlen1.
  pose proof (Forall2_length _ _ _ Hresults) as Hlen2.
  exists (py_dict (zip names results)).
  split; [apply by_asset_zip; congruence|].
  split; [rewrite py_dict_dom, fst_zip; [reflexivity | lia]|].
  intros n [i Hi]%list_elem_of_lookup.
  destruct (Forall2_lookup_l _ _ _ _ _ Hhrefs Hi) as (h & Hh & Hn).
  destruct (Forall2_lookup_l _ _ _ _ _ Hresults Hh) as (r & Hr & Hw).
  exists h, r. split; [exact Hn|]. split; [exact Hw|].
  apply py_dict_lookup.
  - intros r' Hin.
    apply elem_of_lookup_zip_with in Hin as (j & n' & r'' & [= <- <-] & Hj & Hr').
    destruct (Forall2_lookup_l _ _ _ _ _ Hhrefs Hj) as (h' & Hh' & Hn').
    destruct (Forall2_lookup_l _ _ _ _ _ Hresults Hh') as (r2 & Hr2 & Hw').
    assert (h' = h) as -> by congruence.
    unfold compose in *. congruence.
  - apply elem_of_lookup_zip_with. by exists i, n, r.
Qed.

Section PerAsset.

Context `{COGReader, PyRe, PySet, Fetcher}.
Context `{NumExpr (np.plane scalar), NumExpr (list scalar)}.

Lemma per_asset_intro {V} self op (worker : string -> result V)
    names hrefs results (out : io (gmap string V)) :
  _get_href self (Some names) = Ok hrefs ->
  collect (map worker hrefs) = Ok results ->
  out = (map (pair op) hrefs, by_asset names results) ->
  per_asset self op worker names hrefs out.
Proof.
  intros Hhrefs Hresults ->.
  rewrite _get_href_eq in Hhrefs.
  destruct (_get_href_validate self names); [|discriminate].
  apply collect_Forall2, Forall2_fmap_l in Hhrefs.
  destruct (by_asset_spec (item_asset_href self) worker names hrefs results
              Hhrefs Hresults) as (m & -> & Hdom & Hm).
  by exists m.
Qed.

(** C9.  stats, info and metadata check nothing but the names
    themselves: for an empty sequence of names they return the empty
    mapping and read nothing; for names that resolve and locations that
    can be read they return the mapping from each requested name to
    the result for that asset alone. *)
Theorem per_asset_operations (self : STACReader) :
  (forall pmin pmax kwargs,
     stats self (AssetsSeq []) pmin pmax kwargs = ([], Ok ∅))
  /\ info self (AssetsSeq []) = ([], Ok ∅)
  /\ (forall pmin pmax kwargs,
        metadata self (AssetsSeq []) pmin pmax kwargs = ([], Ok ∅))
  /\ (forall assets names hrefs,
        tuple_if_str assets = Some names ->
        _get_href self (Some names) = Ok hrefs ->
        (forall pmin pmax kwargs results,
           collect (map (fun a => cog_stats a pmin pmax kwargs) hrefs)
           = Ok results ->
           per_asset self OpStats (fun a => cog_stats a pmin pmax kwargs)
                     names hrefs (stats self assets pmin pmax kwargs))
        /\ (forall results,
              collect (map (fun a => cog_info a (tms self)) hrefs)
              = Ok results ->
              per_asset self OpInfo (fun a => cog_info a (tms self))
                        names hrefs (info self assets))
        /\ (forall pmin pmax kwargs results,
              collect (map (fun a => cog_metadata a pmin pmax kwargs) hrefs)
              = Ok results ->
              per_asset self OpMetadata
                        (fun a => cog_metadata a pmin pmax kwargs)
                        names hrefs (metadata self assets pmin pmax kwargs))).
Proof.
  split; [reflexivity|]. split; [reflexivity|]. split; [reflexivity|].
  intros assets0 names hrefs Htuple Hhrefs. repeat split; intros.
  - eapply per_asset_intro; [exact Hhrefs | eassumption |].
    unfold stats, _stats, executor_map. rewrite Htuple, Hhrefs.
    io_unfold. cbv beta iota.
    match goal with Hc : collect _ = _ |- _ => rewrite Hc end.
    cbn [default from_option id]. by rewrite app_nil_r.
  - eapply per_asset_intro; [exact Hhrefs | eassumption |].
    unfold info, _info, executor_map. rewrite Htuple, Hhrefs.
    io_unfold. cbv beta iota.
    match goal with Hc : collect _ = _ |- _ => rewrite Hc end.
    cbn [default from_option id]. by rewrite app_nil_r.
  - eapply per_asset_intro; [exact Hhrefs | eassumption |].
    unfold metadata, _metadata, executor_map. rewrite Htuple, Hhrefs.
    io_unfold. cbv beta iota.
    match goal with Hc : collect _ = _ |- _ => rewrite Hc end.
    cbn [default from_option id]. by rewrite app_nil_r.
Qed.

(** C10.  [__exit__] returns the reader as it was: every field, and
    the attributes set at open, are unchanged, so resolution, parsing
    and the seven operations give after the exit what they gave
    before it; a reader that was opened stays usable. *)
Theorem exit_changes_nothing (self : STACReader) :
  __exit__ self = self
  /\ item (__exit__ self) = item self
  /\ bounds (__exit__ self) = bounds self
  /\ assets (__exit__ self) = assets self
  /\ (forall names, _get_href (__exit__ self) names = _get_href self names)
  /\ (forall expression,
        _parse_expression (__exit__ self) expression
        = _parse_expression self expression)
  /\ (forall x y z tilesize assets expression asset_expression kwargs,
        tile (__exit__ self) x y z tilesize assets expression
             asset_expression kwargs
        = tile self x y z tilesize assets expression asset_expression kwargs)
  /\ (forall bbox max_size assets expression asset_expression kwargs,
        part (__exit__ self) bbox max_size assets expression
             asset_expression kwargs
        = part self bbox max_size assets expression asset_expression kwargs)
  /\ (forall assets expression asset_expression kwargs,
        preview (__exit__ self) assets expression asset_expression kwargs
        = preview self assets expression asset_expression kwargs)
  /\ (forall lon lat assets expression asset_expression kwargs,
        point (__exit__ self) lon lat assets expression
              asset_expression kwargs
        = point self lon lat assets expression asset_expression kwargs)
  /\ (forall assets pmin pmax kwargs,
        stats (__exit__ self) assets pmin pmax kwargs
        = stats self assets pmin pmax kwargs)
  /\ (forall assets, info (__exit__ self) assets = info self assets)
  /\ (forall assets pmin pmax kwargs,
        metadata (__exit__ self) assets pmin pmax kwargs
        = metadata self assets pmin pmax kwargs)
  /\ (forall self0, __enter__ self0 = (self, Ok ()) ->
        is_Some (item (__exit__ self))
        /\ is_Some (bounds (__exit__ self))
        /\ is_Some (assets (__exit__ self))).
Proof.
  repeat (split; [reflexivity|]).
  intros self0 Henter.
  destruct (enter_ok self0 self Henter)
    as (it & eligible & Hitem & Hbounds & _ & Hassets).
  unfold __exit__. rewrite Hitem, Hassets, Hbounds.
  repeat split; try by eexists.
  unfold __enter__ in Henter.
  destruct (match item self0 with
            | Some it => if item_truthy it then Ok it
                         else fetch (filepath self0)
            | None => fetch (filepath self0)
            end) as [it'|e]; [|discriminate].
  destruct (item_bbox it') as [b|] eqn:Hb; [|discriminate].
  simpl in Henter.
  destruct (_get_assets it' _ _ _ _) as [l|e]; [|discriminate].
  injection Henter as <-. simpl in Hitem. injection Hitem as <-.
  rewrite Hb. by eexists.
Qed.

End PerAsset.

(** C9, at the fixture reader. *)
Lemma per_asset_operations_witness :
  @stats Fixture.cog Fixture.unopened (AssetsSeq []) (SInt 2) (SInt 98) ()
  = ([], Ok ∅)
  /\ exists m,
       @stats Fixture.cog Fixture.opened (AssetsSeq ["B02"; "B01"])
              (SInt 2) (SInt 98) ()
       = ([(OpStats, "https://somewhereovertherainbow.io/B02.tif");
           (OpStats, "https://somewhereovertherainbow.io/B01.tif")], Ok m)
       /\ dom m = {["B01"; "B02"]}.
Proof.
  destruct (@per_asset_operations Fixture.cog Fixture.unopened)
    as (Hempty & _ & _ & _).
  split; [apply Hempty|].
  destruct (@per_asset_operations Fixture.cog Fixture.opened)
    as (_ & _ & _ & Hgeneral).
  destruct (Hgeneral (AssetsSeq ["B02"; "B01"]) ["B02"; "B01"]
              ["https://somewhereovertherainbow.io/B02.tif";
               "https://somewhereovertherainbow.io/B01.tif"]
              eq_refl eq_refl) as [Hstats _].
  destruct (Hstats (SInt 2) (SInt 98) () [42; 42]%Z eq_refl)
    as (m & Hm & Hdom & _).
  exists m. split; [exact Hm|].
  rewrite Hdom. apply set_eq. intros n.
  rewrite elem_of_list_to_set, !elem_of_cons, elem_of_nil.
  rewrite elem_of_union, !elem_of_singleton. tauto.
Defined.

(** C10, at the fixture reader: after the exit the reader still holds its
    item, bounds and Eligible Asset List, and a tile read gives what it
    gave before. *)
Lemma exit_changes_nothing_witness :
  assets (__exit__ Fixture.opened) = Some ["B01"; "B02"]
  /\ is_Some (bounds (__exit__ Fixture.opened))
  /\ @tile Fixture.cog Fixture.re Fixture.set_order Fixture.numexpr_plane
           (__exit__ Fixture.opened) 0 0 0 256 (AssetsStr "B01") None None ()
     = @tile Fixture.cog Fixture.re Fixture.set_order Fixture.numexpr_plane
             Fixture.opened 0 0 0 256 (AssetsStr "B01") None None ().
Proof.
  destruct (@exit_changes_nothing Fixture.cog Fixture.re Fixture.set_order
              Fixture.fetcher Fixture.numexpr_plane Fixture.numexpr_point
              Fixture.opened)
    as (_ & _ & _ & Hassets & _ & _ & Htile & _ & _ & _ & _ & _ & _ & Hopen).
  split; [rewrite Hassets; vm_compute; reflexivity|].
  split; [|apply Htile].
  destruct (Hopen Fixture.unopened) as (_ & Hbounds & _);
    [vm_compute; reflexivity | exact Hbounds].
Defined.

(** * Further properties *)

(** ** Selection: failures and factorisation *)

Lemma _get_assets_loop_untyped entries include exclude include_types exclude_types :
  ~ typed entries ->
  _get_assets_loop entries include exclude include_types exclude_types
  = Raise (KeyError "type").
Proof.
  unfold typed.
  induction entries as [|[name info] entries IH]; intros Hnot.
  - destruct Hnot. constructor.
  - simpl. destruct (type info) as [ty|] eqn:Hty; [|reflexivity].
    rewrite IH.
    + destruct (and_in exclude name); [reflexivity|].
      destruct (_ || _); [reflexivity|].
      destruct (_ || _); reflexivity.
    + intros Hrest. apply Hnot. constructor; [simpl; by rewrite Hty | exact Hrest].
Qed.

(** X1.  Selection reads every descriptor's media type before it looks
    at any filter: it raises [KeyError "type"] exactly when some
    descriptor of the item has no media type, whatever the filters (also
    when that asset is excluded by name), raises [KeyError "assets"]
    when the item has no asset map, and returns in every other case. *)
Theorem get_assets_outcomes (item : Item)
    (include exclude include_types exclude_types : option (gset string)) :
  (item_assets item = None ->
   _get_assets item include exclude include_types exclude_types
   = Raise (KeyError "assets"))
  /\ (forall entries, item_assets item = Some entries ->
        (_get_assets item include exclude include_types exclude_types
         = Raise (KeyError "type")
         <-> exists e, e ∈ entries /\ type e.2 = None)
        /\ ((exists names,
               _get_assets item include exclude include_types exclude_types
               = Ok names)
            <-> typed entries)).
Proof.
  split.
  - intros Hnone. unfold _get_assets. by rewrite Hnone.
  - intros entries Hentries. unfold _get_assets. rewrite Hentries.
    destruct (decide (typed entries)) as [Htyped|Huntyped].
    + rewrite (_get_assets_loop_select _ _ _ _ _ Htyped). split.
      * split; [discriminate|]. intros ([n info] & Hin & Hnone).
        unfold typed in Htyped. rewrite Forall_forall in Htyped.
        destruct (Htyped _ Hin) as [ty Hty]. simpl in *. congruence.
      * split; [done | by eexists].
    + rewrite (_get_assets_loop_untyped _ _ _ _ _ Huntyped). split.
      * split; [|done]. intros _.
        unfold typed in Huntyped. apply not_Forall_Exists in Huntyped;
          [|intros e; apply _].
        apply Exists_exists in Huntyped as (e & Hin & He).
        exists e. split; [exact Hin|].
        cbv beta in He. destruct (type e.2) as [ty|] eqn:Hty; [|reflexivity].
        destruct He. by exists ty.
      * split; [by intros [? ?] | done].
Qed.

(** X1, at an item whose untyped asset is excluded by name. *)
Lemma get_assets_outcomes_witness :
  _get_assets untyped_item None (Some {["notes"]}) None None
  = Raise (KeyError "type").
Proof.
  destruct (get_assets_outcomes untyped_item None (Some {["notes"]}) None None)
    as [_ Hsome].
  destruct (Hsome _ eq_refl) as [[_ Hraise] _].
  apply Hraise. eexists. split; [right; left | reflexivity].
Defined.

Lemma select_cons given name info entries
    include exclude include_types exclude_types :
  select given ((name, info) :: entries)
         include exclude include_types exclude_types
  = match type info with
    | Some ty =>
        if selector_rejects given include exclude
                            include_types exclude_types name ty
        then select given entries include exclude include_types exclude_types
        else name :: select given entries include exclude
                            include_types exclude_types
    | None => select given entries include exclude include_types exclude_types
    end.
Proof.
  unfold select. cbn [omap list_omap fst snd].
  destruct (type info) as [ty|]; [|reflexivity].
  by destruct (selector_rejects _ _ _ _ _ _ _).
Qed.

Lemma selector_rejects_factor include exclude include_types exclude_types n ty :
  selector_rejects given_nonempty include exclude include_types exclude_types
                   n ty
  = selector_rejects given_nonempty None None include_types exclude_types n ty
    || negb (name_passes include exclude n).
Proof.
  unfold selector_rejects, name_passes. cbn [contains lacks].
  destruct (contains exclude n), (contains exclude_types ty),
    (given_nonempty include && lacks include n),
    (given_nonempty include_types && lacks include_types ty); reflexivity.
Qed.

Lemma select_names_of_types entries include exclude include_types exclude_types :
  select given_nonempty entries include exclude include_types exclude_types
  = filter (fun n => name_passes include exclude n = true)
           (select given_nonempty entries None None include_types exclude_types).
Proof.
  induction entries as [|[name info] entries IH]; [reflexivity|].
  rewrite !select_cons. destruct (type info) as [ty|]; [|exact IH].
  rewrite selector_rejects_factor.
  destruct (selector_rejects given_nonempty None None _ _ name ty);
    cbn [orb]; [exact IH|].
  destruct (name_passes include exclude name) eqn:Hpass; cbn [negb].
  - rewrite filter_cons_True by exact Hpass. by rewrite IH.
  - rewrite filter_cons_False; [exact IH|]. by rewrite Hpass.
Qed.

(** X2.  Selection factors into the media-type filters followed by the
    name filters: the selected list is the list selected by the type
    filters alone with the excluded names, and the names missing from a
    non-empty include set, removed; with no filter at all it is the full
    list of asset names in catalog order. *)
Theorem get_assets_factors (item : Item) (entries : list (string * AssetInfo))
    (include exclude include_types exclude_types : option (gset string)) :
  item_assets item = Some entries ->
  typed entries ->
  (exists by_type,
     _get_assets item None None include_types exclude_types = Ok by_type
     /\ _get_assets item include exclude include_types exclude_types
        = Ok (filter (fun n => name_passes include exclude n = true) by_type))
  /\ _get_assets item None None None None = Ok entries.*1.
Proof.
  intros Hentries Htyped. unfold _get_assets. rewrite Hentries.
  rewrite !(_get_assets_loop_select _ _ _ _ _ Htyped). split.
  - eexists. split; [reflexivity|]. f_equal. apply select_names_of_types.
  - f_equal. clear Hentries. unfold typed in Htyped.
    induction Htyped as [|[name info] entries [ty Hty] _ IH]; [reflexivity|].
    rewrite select_cons. simpl in Hty. rewrite Hty.
    cbn [selector_rejects contains given_nonempty set_truthy andb orb].
    rewrite fmap_cons. by rewrite IH.
Qed.

(** X2, at the fixture item with the default types, ["B02"] excluded. *)
Lemma get_assets_factors_witness :
  _get_assets Fixture.item None (Some {["B02"]})
              (Some DEFAULT_VALID_TYPE) None = Ok ["B01"]
  /\ _get_assets Fixture.item None None None None
     = Ok ["thumbnail"; "B01"; "B02"].
Proof.
  destruct (get_assets_factors Fixture.item
              (default [] (item_assets Fixture.item))
              None (Some {["B02"]}) (Some DEFAULT_VALID_TYPE) None eq_refl)
    as [(by_type & Hby & Hsel) Hall].
  { repeat constructor; simpl; eexists; reflexivity. }
  split; [|exact Hall].
  rewrite Hsel. f_equal.
  assert (by_type = ["B01"; "B02"]) as ->
    by (vm_compute in Hby; by injection Hby).
  vm_compute. reflexivity.
Defined.

(** ** Opening a reader *)

Section Opening.

Context `{Fetcher}.

Lemma enter_configuration self :
  configuration (__enter__ self).1 = configuration self.
Proof.
  unfold __enter__.
  destruct (match item self with
            | Some it => if item_truthy it then Ok it
                         else fetch (filepath self)
            | None => fetch (filepath self)
            end) as [it|e]; [|reflexivity].
  destruct (item_bbox it) as [b|]; [|reflexivity].
  cbn [include_assets exclude_assets include_asset_types exclude_asset_types
       set_bounds set_item].
  destruct (_get_assets it _ _ _ _); reflexivity.
Qed.

(** X3.  Opening never changes the construction-time configuration
    (location, tiling scheme, zooms, the four filters).  When it
    succeeds, the reader holds a non-empty item, that item's bounding
    box, and as Eligible Asset List the selection of that item under the
    reader's filters; when it fails, the Eligible Asset List is left as
    it was (an item or bounds already assigned stay assigned). *)
Theorem enter_establishes (self : STACReader) :
  configuration (__enter__ self).1 = configuration self
  /\ ((__enter__ self).2 = Ok () -> opened_reader (__enter__ self).1)
  /\ (forall e, (__enter__ self).2 = Raise e ->
        assets (__enter__ self).1 = assets self).
Proof.
  split; [apply enter_configuration|].
  unfold __enter__, opened_reader.
  destruct (match item self with
            | Some it => if item_truthy it then Ok it
                         else fetch (filepath self)
            | None => fetch (filepath self)
            end) as [it|e]; [|split; [discriminate | reflexivity]].
  destruct (item_bbox it) as [b|] eqn:Hb;
    [|split; [discriminate | reflexivity]].
  cbn [include_assets exclude_assets include_asset_types exclude_asset_types
       set_bounds set_item].
  destruct (_get_assets it _ _ _ _) as [l|e] eqn:Hsel;
    [|split; [discriminate | reflexivity]].
  split; [|discriminate]. intros _. exists it, l. cbn.
  repeat split; try done.
  unfold item_truthy. by rewrite Hb.
Qed.

(** X4.  A reader in the opened state is a fixed point of opening,
    whatever the document fetcher does: entering it again consults no
    fetcher, raises nothing and returns the very same reader; in
    particular opening is idempotent, and closing keeps the opened
    state. *)
Theorem enter_opened_fixed_point (self : STACReader) :
  opened_reader self ->
  (forall F : Fetcher, @__enter__ F self = (self, Ok ()))
  /\ opened_reader (__exit__ self).
Proof.
  intros (it & eligible & Hitem & Htruthy & Hbounds & [b Hb] & Hsel & Hassets).
  split; [|by exists it, eligible].
  intros F. unfold __enter__. rewrite Hitem, Htruthy.
  rewrite Hb in Hbounds. rewrite <- Hbounds.
  cbn [include_assets exclude_assets include_asset_types exclude_asset_types
       set_bounds set_item].
  rewrite Hsel. destruct self. simpl in *. by subst.
Qed.

End Opening.

Lemma fixture_opened_reader : opened_reader Fixture.opened.
Proof.
  exists Fixture.item, ["B01"; "B02"].
  repeat split; try (vm_compute; reflexivity). by eexists.
Qed.

(** X3, at the fixture reader. *)
Lemma enter_establishes_witness :
  (@__enter__ Fixture.fetcher Fixture.unopened).2 = Ok ()
  /\ opened_reader Fixture.opened
  /\ configuration Fixture.opened = configuration Fixture.unopened.
Proof.
  destruct (@enter_establishes Fixture.fetcher Fixture.unopened)
    as (Hconf & Hopen & _).
  split; [vm_compute; reflexivity|].
  split; [apply Hopen; vm_compute; reflexivity | exact Hconf].
Defined.

(** X4, at the fixture reader: entering it again with a fetcher that
    always fails changes nothing. *)
Lemma enter_opened_fixed_point_witness :
  opened_reader Fixture.opened
  /\ @__enter__ {| fetch := fun _ => Raise (ExternalError "offline") |}
                Fixture.opened
     = (Fixture.opened, Ok ()).
Proof.
  pose proof fixture_opened_reader as Hopened.
  split; [exact Hopened|].
  destruct (enter_opened_fixed_point Fixture.opened Hopened) as [Hfix _].
  apply Hfix.
Defined.

(** ** Resolution: which error, and when *)

Section ResolutionErrors.

Context `{COGReader, PyRe, PySet, Fetcher}.
Context `{NumExpr (np.plane scalar), NumExpr (list scalar)}.

(** X5.  Validation of the whole request precedes every location
    lookup: when a requested name is not eligible, the error raised is
    the "not a valid asset name" error of the first such name in request
    order, whatever comes after it and even when an earlier, eligible
    asset has no location. *)
Theorem get_href_first_invalid (self : STACReader)
    (eligible before after : list string) (n : string) :
  assets self = Some eligible ->
  Forall (fun m => m ∈ eligible) before ->
  n ∉ eligible ->
  _get_href self (Some (before ++ n :: after)%list) = Raise (invalid_name n).
Proof.
  intros Hassets Hbefore Hn. rewrite _get_href_eq.
  assert (Hv : _get_href_validate self (before ++ n :: after)%list
               = Raise (invalid_name n)).
  { induction Hbefore as [|m before Hm _ IH]; simpl; rewrite Hassets.
    - by rewrite bool_decide_eq_false_2.
    - by rewrite bool_decide_eq_true_2. }
  by rewrite Hv.
Qed.

Lemma item_asset_href_opened self it d n :
  item self = Some it -> item_assets it = Some d -> n ∈ d.*1 ->
  (exists h, item_asset_href self n = Ok h)
  \/ item_asset_href self n = Raise (KeyError "href").
Proof.
  intros Hitem Hd Hn. unfold item_asset_href. rewrite Hitem, Hd.
  assert (Hget : is_Some (dict_get d n)).
  { clear Hd. induction d as [|[k v] d IH]; simpl.
    - by apply elem_of_nil in Hn.
    - destruct (decide (k = n)); [by eexists|].
      apply elem_of_cons in Hn as [?|?]; [simpl in *; congruence | by apply IH]. }
  destruct Hget as [info ->]. destruct (href info); [left; by eexists | by right].
Qed.

(** X6.  On an opened reader resolution has three outcomes only: it
    returns one location per requested name, or raises the "not a valid
    asset name" error of a requested name, or raises [KeyError "href"]
    for an eligible asset whose descriptor has no location; an eligible
    name is never missing from the item. *)
Theorem opened_reader_resolution (self : STACReader) (names : list string) :
  opened_reader self ->
  (exists hrefs, _get_href self (Some names) = Ok hrefs
                 /\ length hrefs = length names)
  \/ (exists n, n ∈ names
                /\ _get_href self (Some names) = Raise (invalid_name n))
  \/ _get_href self (Some names) = Raise (KeyError "href").
Proof.
  intros (it & eligible & Hitem & _ & _ & _ & Hsel & Hassets).
  rewrite _get_href_eq.
  destruct (_get_href_validate_cases self eligible names Hassets)
    as [[Hall ->] | (before & n & after & -> & _ & _ & ->)].
  - destruct (collect (map (item_asset_href self) names)) as [hrefs|e] eqn:Hc.
    + left. exists hrefs. split; [reflexivity|].
      apply collect_length in Hc. by rewrite length_map in Hc.
    + right. right. apply collect_Raise in Hc.
      apply list_elem_of_fmap in Hc as (n & Hc & Hin).
      rewrite Forall_forall in Hall.
      pose proof (_get_assets_names _ _ _ _ _ _ Hsel n (Hall n Hin)) as Hcat.
      unfold asset_names in Hcat.
      destruct (item_assets it) as [d|] eqn:Hd;
        [|by apply elem_of_nil in Hcat].
      destruct (item_asset_href_opened self it d n Hitem Hd Hcat)
        as [[h Hh] | Hh]; congruence.
  - right. left. exists n. split; [|reflexivity].
    apply elem_of_app. right. left.
Qed.

(** X7.  A reader that was never opened has no Eligible Asset List:
    every operation given an expression or at least one asset name
    raises [AttributeError] for the missing attribute, and reads
    nothing. *)
Theorem unopened_reader_operations (self : STACReader)
    (assets0 : AssetsArg) (expression : option string) :
  assets self = None ->
  (str_truthy expression = true \/ seq_truthy (tuple_if_str assets0) = true ->
   (forall x y z tilesize asset_expression kwargs,
      tile self x y z tilesize assets0 expression asset_expression kwargs
      = ([], Raise (AttributeError "assets")))
   /\ (forall bbox max_size asset_expression kwargs,
         part self bbox max_size assets0 expression asset_expression kwargs
         = ([], Raise (AttributeError "assets")))
   /\ (forall asset_expression kwargs,
         preview self assets0 expression asset_expression kwargs
         = ([], Raise (AttributeError "assets")))
   /\ (forall lon lat asset_expression kwargs,
         point self lon lat assets0 expression asset_expression kwargs
         = ([], Raise (AttributeError "assets"))))
  /\ (seq_truthy (tuple_if_str assets0) = true ->
      (forall pmin pmax kwargs,
         stats self assets0 pmin pmax kwargs
         = ([], Raise (AttributeError "assets")))
      /\ info self assets0 = ([], Raise (AttributeError "assets"))
      /\ (forall pmin pmax kwargs,
            metadata self assets0 pmin pmax kwargs
            = ([], Raise (AttributeError "assets")))).
Proof.
  intros Hassets.
  assert (Hhref : forall names, seq_truthy names = true ->
            _get_href self names = Raise (AttributeError "assets")).
  { intros [[|n names]|]; try discriminate. intros _.
    rewrite _get_href_eq. simpl. by rewrite Hassets. }
  split.
  - intros Hgiven.
    assert (Hres : resolved self assets0 expression
                   = Raise (AttributeError "assets")).
    { unfold resolved, requested, _parse_expression. rewrite Hassets.
      destruct (str_truthy expression); [reflexivity|].
      destruct Hgiven as [?|Hseq]; [discriminate|].
      unfold mbind, result_bind, rbind. rewrite Hseq. cbn [negb].
      by rewrite (Hhref _ Hseq). }
    repeat split; intros.
    + by rewrite tile_unfold, Hres.
    + by rewrite part_unfold, Hres.
    + by rewrite preview_unfold, Hres.
    + by rewrite point_unfold, Hres.
  - intros Hseq. repeat split; intros.
    + unfold stats. by rewrite (Hhref _ Hseq).
    + unfold info. by rewrite (Hhref _ Hseq).
    + unfold metadata. by rewrite (Hhref _ Hseq).
Qed.

End ResolutionErrors.

(** X5, at the fixture reader: ["B01"] is eligible, ["B1"] and
    ["thumbnail"] are not, and the error names ["B1"]. *)
Lemma get_href_first_invalid_witness :
  _get_href Fixture.opened (Some ["B01"; "B1"; "thumbnail"])
  = Raise (InvalidBandName "B1 is not a valid asset name.").
Proof.
  apply (get_href_first_invalid Fixture.opened ["B01"; "B02"]
           ["B01"] ["thumbnail"] "B1").
  - vm_compute. reflexivity.
  - repeat constructor.
  - apply (bool_decide_unpack _). vm_compute. exact I.
Defined.

(** X6, at the fixture reader. *)
Lemma opened_reader_resolution_witness :
  exists hrefs, _get_href Fixture.opened (Some ["B02"; "B01"; "B02"]) = Ok hrefs
                /\ length hrefs = 3%nat.
Proof.
  destruct (opened_reader_resolution Fixture.opened ["B02"; "B01"; "B02"]
              fixture_opened_reader)
    as [Hok | [(n & _ & Hraise) | Hraise]].
  - exact Hok.
  - vm_compute in Hraise. discriminate.
  - vm_compute in Hraise. discriminate.
Defined.

(** X7, at the fixture reader before it is entered. *)
Lemma unopened_reader_operations_witness :
  @stats Fixture.cog Fixture.unopened (AssetsStr "B01") (SInt 2) (SInt 98) ()
  = ([], Raise (AttributeError "assets"))
  /\ @tile Fixture.cog Fixture.re Fixture.set_order Fixture.numexpr_plane
           Fixture.unopened 0 0 0 256 AssetsNone (Some "B01/B02") None ()
     = ([], Raise (AttributeError "assets")).
Proof.
  destruct (@unopened_reader_operations Fixture.cog Fixture.re
              Fixture.set_order Fixture.numexpr_plane Fixture.numexpr_point
              Fixture.unopened (AssetsStr "B01") None eq_refl)
    as [_ Hmeta].
  destruct (Hmeta eq_refl) as [Hstats _].
  split; [apply Hstats|].
  destruct (@unopened_reader_operations Fixture.cog Fixture.re
              Fixture.set_order Fixture.numexpr_plane Fixture.numexpr_point
              Fixture.unopened AssetsNone (Some "B01/B02") eq_refl)
    as [Hpixel _].
  destruct (Hpixel (or_introl eq_refl)) as [Htile _]. apply Htile.
Defined.

(** ** The pattern built from the asset names *)

Lemma ascii_compare_refl (c : ascii) : Ascii.compare c c = Eq.
Proof. unfold Ascii.compare. apply N.compare_refl. Qed.

Lemma ascii_compare_lt_trans (a b c : ascii) :
  Ascii.compare a b = Lt -> Ascii.compare b c = Lt -> Ascii.compare a c = Lt.
Proof.
  unfold Ascii.compare. rewrite !N.compare_lt_iff. apply N.lt_trans.
Qed.

Lemma string_compare_refl (s : string) : String.compare s s = Eq.
Proof.
  induction s as [|c s IH]; [reflexivity|].
  simpl. by rewrite ascii_compare_refl.
Qed.

Lemma string_compare_lt_trans (x y z : string) :
  String.compare x y = Lt -> String.compare y z = Lt ->
  String.compare x z = Lt.
Proof.
  revert y z. induction x as [|a x IH]; intros [|b y] [|c z]; simpl;
    try discriminate; try reflexivity.
  destruct (Ascii.compare a b) eqn:Hab; try discriminate;
    destruct (Ascii.compare b c) eqn:Hbc; try discriminate; intros Hxy Hyz.
  - apply Ascii.compare_eq_iff in Hab, Hbc. subst.
    rewrite ascii_compare_refl. by eapply IH.
  - apply Ascii.compare_eq_iff in Hab. subst. by rewrite Hbc.
  - apply Ascii.compare_eq_iff in Hbc. subst. by rewrite Hab.
  - by rewrite (ascii_compare_lt_trans a b c).
Qed.

Lemma not_below_trans (x y z : string) :
  not_below x y -> not_below y z -> not_below x z.
Proof.
  unfold not_below, String.ltb. intros Hxy Hyz.
  destruct (String.compare x z) eqn:Hxz; try reflexivity.
  rewrite String.compare_antisym in Hxy, Hyz.
  destruct (String.compare y x) eqn:Hyx; simpl in Hxy; try discriminate.
  - apply String.compare_eq_iff in Hyx. subst.
    rewrite String.compare_antisym in Hyz. rewrite Hxz in Hyz. discriminate.
  - destruct (String.compare z y) eqn:Hzy; simpl in Hyz; try discriminate.
    + apply String.compare_eq_iff in Hzy. subst.
      rewrite String.compare_antisym, Hyx in Hxz. discriminate.
    + pose proof (string_compare_lt_trans _ _ _ Hyx Hxz) as Hyz'.
      rewrite String.compare_antisym, Hzy in Hyz'. discriminate.
Qed.

Lemma insert_desc_Permutation (x : string) (l : list string) :
  insert_desc x l ≡ₚ x :: l.
Proof.
  induction l as [|y l IH]; simpl; [reflexivity|].
  destruct (String.ltb x y); [|reflexivity].
  rewrite IH. apply Permutation_swap.
Qed.

Lemma sorted_reverse_Permutation (l : list string) : sorted_reverse l ≡ₚ l.
Proof.
  unfold sorted_reverse. induction l as [|x l IH]; simpl; [reflexivity|].
  by rewrite insert_desc_Permutation, IH.
Qed.

Lemma insert_desc_sorted (x : string) (l : list string) :
  StronglySorted not_below l -> StronglySorted not_below (insert_desc x l).
Proof.
  induction 1 as [|y l Hl IH Hy]; simpl.
  - repeat constructor.
  - destruct (String.ltb x y) eqn:Hxy.
    + constructor; [exact IH|].
      apply Forall_forall. intros z Hz.
      rewrite insert_desc_Permutation in Hz.
      apply elem_of_cons in Hz as [->|Hz].
      * unfold not_below, String.ltb. rewrite String.compare_antisym.
        unfold String.ltb in Hxy.
        by destruct (String.compare x y).
      * rewrite Forall_forall in Hy. by apply Hy.
    + constructor; [by constructor|].
      constructor; [exact Hxy|].
      eapply Forall_impl; [exact Hy|].
      intros z Hz. by eapply not_below_trans.
Qed.

Lemma sorted_reverse_sorted (l : list string) :
  StronglySorted not_below (sorted_reverse l).
Proof.
  unfold sorted_reverse. induction l as [|x l IH]; simpl; [constructor|].
  by apply insert_desc_sorted.
Qed.

Lemma prefix_cons (a b : ascii) (s t : string) :
  String.prefix (String a s) (String b t)
  = bool_decide (a = b) && String.prefix s t.
Proof.
  simpl. destruct (ascii_dec a b) as [->|Hne].
  - by rewrite bool_decide_eq_true_2.
  - by rewrite bool_decide_eq_false_2.
Qed.

(** Two prefixes of one string: the shorter is a prefix of the longer. *)
Lemma prefix_chain (a c s : string) :
  String.prefix a s = true -> String.prefix c s = true ->
  (String.length a <= String.length c)%nat ->
  String.prefix a c = true.
Proof.
  revert c s. induction a as [|x a IH]; intros c s Ha Hc Hlen.
  - apply prefix_empty.
  - destruct c as [|y c]; [simpl in Hlen; lia|].
    destruct s as [|z s]; [discriminate|].
    rewrite prefix_cons in Ha, Hc |- *.
    apply andb_true_iff in Ha as [Hxz Ha], Hc as [Hyz Hc].
    apply bool_decide_eq_true in Hxz, Hyz. subst.
    rewrite bool_decide_eq_true_2 by reflexivity. simpl.
    eapply IH; [exact Ha | exact Hc | simpl in Hlen; lia].
Qed.

(** A proper prefix sorts below the string it begins. *)
Lemma prefix_ltb (a c : string) :
  String.prefix a c = true -> (String.length a < String.length c)%nat ->
  String.ltb a c = true.
Proof.
  unfold String.ltb. revert c.
  induction a as [|x a IH]; intros [|y c] Hp Hlen; simpl in Hlen;
    try lia; try reflexivity; try discriminate.
  rewrite prefix_cons in Hp. apply andb_true_iff in Hp as [Hxy Hp].
  apply bool_decide_eq_true in Hxy. subst.
  simpl. rewrite ascii_compare_refl. apply IH; [exact Hp | lia].
Qed.

(** [match_alt] returns the first alternative that is a prefix. *)
Lemma match_alt_first (alts : list string) (s a : string) :
  match_alt alts s false = Some a ->
  exists before after,
    alts = (before ++ a :: after)%list
    /\ String.prefix a s = true
    /\ Forall (fun x => String.prefix x s = false) before.
Proof.
  induction alts as [|x alts IH]; simpl; [discriminate|].
  rewrite andb_true_r.
  destruct (String.prefix x s) eqn:Hx.
  - intros [= ->]. by exists [], alts.
  - intros (before & after & -> & Ha & Hb)%IH.
    exists (x :: before), after. repeat split; [exact Ha | by constructor].
Qed.

Lemma match_alt_None (alts : list string) (s : string) :
  match_alt alts s false = None <->
  Forall (fun x => String.prefix x s = false) alts.
Proof.
  induction alts as [|x alts IH]; simpl.
  - split; [constructor | reflexivity].
  - rewrite andb_true_r. destruct (String.prefix x s) eqn:Hx.
    + split; [discriminate|]. intros [? _]%Forall_cons. congruence.
    + rewrite IH. split; [by constructor | by intros [_ ?]%Forall_cons].
Qed.

Lemma match_alt_elem (alts : list string) (s a : string) (b : bool) :
  match_alt alts s b = Some a -> a ∈ alts.
Proof.
  induction alts as [|x alts IH]; simpl; [discriminate|].
  destruct (_ && _).
  - intros [= ->]. left.
  - intros Ha. right. by apply IH.
Qed.

Lemma matches_here_elem (alts : list string) (s a : string) :
  a ∈ (matches_here alts s).1 -> a ∈ alts.
Proof.
  unfold matches_here.
  destruct (match_alt alts s false) as [[|c m]|] eqn:H1.
  - destruct (match_alt alts s true) as [m'|] eqn:H2; simpl.
    + rewrite !elem_of_cons, elem_of_nil.
      intros [->|[->|[]]]; by eapply match_alt_elem.
    + rewrite !elem_of_cons, elem_of_nil.
      intros [->|[]]; by eapply match_alt_elem.
  - simpl. rewrite !elem_of_cons, elem_of_nil.
    intros [->|[]]; by eapply match_alt_elem.
  - simpl. by intros ?%elem_of_nil.
Qed.

(** Whatever [findall] finds is one of the alternatives. *)
Lemma findall_scan_elem (alts : list string) (s : string) (skip : nat)
    (a : string) :
  a ∈ findall_scan alts s skip -> a ∈ alts.
Proof.
  revert skip. induction s as [|c s IH]; intros [|k]; simpl.
  - destruct (matches_here alts "") as [found n] eqn:Hm.
    intros Ha. apply (matches_here_elem alts ""). by rewrite Hm.
  - by intros ?%elem_of_nil.
  - destruct (matches_here alts (String c s)) as [found n] eqn:Hm.
    intros [Ha|Ha]%elem_of_app.
    + apply (matches_here_elem alts (String c s)). by rewrite Hm.
    + by eapply IH.
  - apply IH.
Qed.

(** Joining and splitting on a separator the parts do not contain. *)
Lemma literal_name_split (n : string) :
  literal_name n = true -> str_split "|" n = [n].
Proof.
  induction n as [|c n IH]; [reflexivity|]. simpl.
  intros [[_ Hc]%andb_true_iff Hn]%andb_true_iff.
  apply negb_true_iff, bool_decide_eq_false in Hc.
  destruct (decide (c = "|"%char)); [done|]. by rewrite IH.
Qed.

Lemma literal_name_split_app (n rest : string) :
  literal_name n = true ->
  str_split "|" (n ++ String "|" rest) = n :: str_split "|" rest.
Proof.
  induction n as [|c n IH]; [reflexivity|]. simpl.
  intros [[_ Hc]%andb_true_iff Hn]%andb_true_iff.
  apply negb_true_iff, bool_decide_eq_false in Hc.
  destruct (decide (c = "|"%char)); [done|]. by rewrite IH.
Qed.

Lemma split_join (l : list string) :
  l <> [] -> Forall (fun n => literal_name n = true) l ->
  str_split "|" (str_join "|" l) = l.
Proof.
  intros Hne Hall. unfold str_join.
  induction Hall as [|n l Hn Hl IH]; [done|].
  destruct l as [|m l].
  - simpl. by apply literal_name_split.
  - change (String.concat "|" (n :: m :: l))
      with (n ++ String "|" (String.concat "|" (m :: l))).
    rewrite literal_name_split_app by exact Hn.
    by rewrite IH.
Qed.

Lemma literal_name_no_special (n : string) :
  literal_name n = true ->
  existsb re_special (list_ascii_of_string n) = false.
Proof.
  induction n as [|c n IH]; [reflexivity|]. simpl.
  intros [[Hc _]%andb_true_iff Hn]%andb_true_iff.
  apply negb_true_iff in Hc. by rewrite Hc, IH.
Qed.

Lemma existsb_special_app (a b : string) :
  existsb re_special (list_ascii_of_string (a ++ b))
  = existsb re_special (list_ascii_of_string a)
    || existsb re_special (list_ascii_of_string b).
Proof.
  induction a as [|c a IH]; [reflexivity|]. simpl.
  by rewrite IH, orb_assoc.
Qed.

Lemma join_no_special (l : list string) :
  Forall (fun n => literal_name n = true) l ->
  existsb re_special (list_ascii_of_string (str_join "|" l)) = false.
Proof.
  unfold str_join. induction 1 as [|n l Hn Hl IH]; [reflexivity|].
  destruct l as [|m l].
  - simpl. by apply literal_name_no_special.
  - change (String.concat "|" (n :: m :: l))
      with (n ++ String "|" (String.concat "|" (m :: l))).
    rewrite existsb_special_app, (literal_name_no_special n Hn).
    simpl. exact IH.
Qed.

(** The compiled pattern of a reader whose names are literal: the names
    in reverse sorted order. *)
Lemma pattern_alternatives (known : list string) :
  known <> [] -> Forall (fun n => literal_name n = true) known ->
  re_literal_alternatives (str_join "|" (sorted_reverse known))
  = Some (sorted_reverse known).
Proof.
  intros Hne Hall.
  assert (Hall' : Forall (fun n => literal_name n = true)
                         (sorted_reverse known)).
  { apply Forall_forall. intros n Hn.
    rewrite sorted_reverse_Permutation in Hn.
    rewrite Forall_forall in Hall. by apply Hall. }
  assert (Hne' : sorted_reverse known <> []).
  { intros Hnil. apply Hne. apply Permutation_nil_r.
    by rewrite <- Hnil, sorted_reverse_Permutation. }
  unfold re_literal_alternatives.
  by rewrite (join_no_special _ Hall'), (split_join _ Hne' Hall').
Qed.

Lemma StronglySorted_suffix {A} (R : A -> A -> Prop) (l1 l2 : list A) :
  StronglySorted R (l1 ++ l2) -> StronglySorted R l2.
Proof.
  induction l1 as [|x l1 IH]; [done|].
  simpl. intros [Hrest _]%StronglySorted_inv. by apply IH.
Qed.

Section LiteralNames.

Context `{PyRe, PySet}.

Lemma _parse_expression_literal self known expression :
  assets self = Some known ->
  known <> [] -> Forall (fun n => literal_name n = true) known ->
  _parse_expression self expression
  = Ok (list_of_set (findall_alternatives (sorted_reverse known) expression)).
Proof.
  intros Hassets Hne Hall. unfold _parse_expression. rewrite Hassets.
  by rewrite (re_findall_literal _ _ expression
                (pattern_alternatives known Hne Hall)).
Qed.

(** X8.  When the known names are literal, the scan takes at every
    position the longest known name that begins there: sorting the
    names in reverse puts every name ahead of its own prefixes, so the
    first alternative that matches is the longest one; no name is taken
    where none begins. *)
Theorem parse_expression_longest_match (self : STACReader)
    (known : list string) :
  assets self = Some known ->
  known <> [] -> Forall (fun n => literal_name n = true) known ->
  (forall expression,
     _parse_expression self expression
     = Ok (list_of_set
             (findall_alternatives (sorted_reverse known) expression)))
  /\ (forall s a,
        match_alt (sorted_reverse known) s false = Some a ->
        a ∈ known /\ String.prefix a s = true
        /\ forall c, c ∈ known -> String.prefix c s = true ->
                     (String.length c <= String.length a)%nat)
  /\ (forall s,
        match_alt (sorted_reverse known) s false = None <->
        forall c, c ∈ known -> String.prefix c s = false).
Proof.
  intros Hassets Hne Hall.
  split; [intros; by apply _parse_expression_literal|]. split.
  - intros s a Hmatch.
    destruct (match_alt_first _ _ _ Hmatch)
      as (before & after & Halts & Ha & Hbefore).
    assert (Hin : a ∈ known).
    { rewrite <- sorted_reverse_Permutation, Halts.
      apply elem_of_app. right. left. }
    split; [exact Hin|]. split; [exact Ha|].
    intros c Hc Hpc.
    destruct (le_lt_dec (String.length c) (String.length a)) as [|Hlt];
      [assumption|exfalso].
    assert (Hac : String.ltb a c = true).
    { apply prefix_ltb; [|exact Hlt].
      eapply prefix_chain; [exact Ha | exact Hpc | lia]. }
    pose proof (sorted_reverse_sorted known) as Hsorted.
    rewrite Halts in Hsorted.
    rewrite <- sorted_reverse_Permutation, Halts in Hc.
    apply elem_of_app in Hc as [Hc|Hc].
    + rewrite Forall_forall in Hbefore. rewrite (Hbefore c Hc) in Hpc.
      discriminate.
    + apply elem_of_cons in Hc as [->|Hc]; [lia|].
      apply StronglySorted_suffix in Hsorted.
      apply StronglySorted_inv in Hsorted as [_ Hafter].
      rewrite Forall_forall in Hafter.
      pose proof (Hafter c Hc) as Hnb. unfold not_below in Hnb. congruence.
  - intros s. rewrite match_alt_None, Forall_forall. split.
    + intros Hnone c Hc. apply Hnone. by rewrite sorted_reverse_Permutation.
    + intros Hnone c Hc. apply Hnone. by rewrite <- sorted_reverse_Permutation.
Qed.

(** X9.  When the known names are literal, parsing returns known names
    only, each once; the names it returns always pass validation, so an
    operation driven by an expression never raises the "not a valid
    asset name" error. *)
Theorem parse_expression_sound (self : STACReader)
    (known : list string) (expression : string) :
  assets self = Some known ->
  known <> [] -> Forall (fun n => literal_name n = true) known ->
  exists names,
    _parse_expression self expression = Ok names
    /\ NoDup names
    /\ (forall n, n ∈ names -> n ∈ known)
    /\ _get_href_validate self names = Ok ()
    /\ (forall msg, _get_href self (Some names) <> Raise (InvalidBandName msg)).
Proof.
  intros Hassets Hne Hall.
  eexists. split; [by apply _parse_expression_literal|].
  set (names := list_of_set _).
  assert (Hnodup : NoDup names).
  { unfold names. rewrite list_of_set_perm. apply NoDup_remove_dups. }
  assert (Hknown : forall n, n ∈ names -> n ∈ known).
  { intros n. unfold names. rewrite list_of_set_perm, elem_of_remove_dups.
    intros Hn%findall_scan_elem. by rewrite <- sorted_reverse_Permutation. }
  assert (Hvalid : _get_href_validate self names = Ok ()).
  { destruct (_get_href_validate_cases self known names Hassets)
      as [[_ Hok] | (before & n & after & Hnames & _ & Hn & _)];
      [exact Hok|].
    destruct Hn. apply Hknown. rewrite Hnames.
    apply elem_of_app. right. left. }
  repeat split; try assumption.
  intros msg. rewrite _get_href_eq, Hvalid. intros Hc.
  apply collect_Raise in Hc.
  apply list_elem_of_fmap in Hc as (n & Hc & _).
  symmetry in Hc. by apply item_asset_href_not_invalid in Hc.
Qed.

End LiteralNames.

(** X8, at known names "B1", "B10" and "B100": at "B100/B1" the name
    taken is "B100". *)
Lemma parse_expression_longest_match_witness :
  match_alt (sorted_reverse ["B1"; "B100"; "B10"]) "B100/B1" false
  = Some "B100"
  /\ forall c, c ∈ ["B1"; "B100"; "B10"] ->
               String.prefix c "B100/B1" = true ->
               (String.length c <= 4)%nat.
Proof.
  split; [vm_compute; reflexivity|].
  destruct (@parse_expression_longest_match Fixture.re Fixture.set_order
              (set_assets Fixture.unopened ["B1"; "B100"; "B10"])
              ["B1"; "B100"; "B10"] eq_refl)
    as (_ & Hlongest & _); [discriminate | repeat constructor |].
  destruct (Hlongest "B100/B1" "B100" eq_refl) as (_ & _ & Hlen).
  exact Hlen.
Defined.

(** X9, at the fixture reader. *)
Lemma parse_expression_sound_witness :
  exists names,
    @_parse_expression Fixture.re Fixture.set_order Fixture.opened
       "(B02 - B01) / (B02 + B01)" = Ok names
    /\ NoDup names
    /\ (forall n, n ∈ names -> n ∈ ["B01"; "B02"]).
Proof.
  destruct (@parse_expression_sound Fixture.re Fixture.set_order
              Fixture.opened ["B01"; "B02"] "(B02 - B01) / (B02 + B01)")
    as (names & Hparse & Hnodup & Hknown & _).
  - vm_compute. reflexivity.
  - discriminate.
  - repeat constructor.
  - by exists names.
Defined.

(** ** Expression application: binding, padding, failures *)

(** [dict(pairs)] holds for a key the value of its last pair. *)
Lemma py_dict_last {V} (pairs : list (string * V)) (k : string) (v : V) :
  py_dict pairs !! k = Some v <->
  exists i, pairs !! i = Some (k, v)
            /\ forall j v', (i < j)%nat -> pairs !! j <> Some (k, v').
Proof.
  induction pairs as [|[k' v'] pairs IH] using rev_ind.
  - split; [discriminate|]. by intros (i & Hi & _).
  - rewrite py_dict_snoc. destruct (decide (k' = k)) as [->|Hne].
    + rewrite lookup_insert_eq. split.
      * intros [= ->]. exists (length pairs). split.
        -- by rewrite lookup_app_r, Nat.sub_diag by lia.
        -- intros j v'' Hj. rewrite lookup_ge_None_2; [done|].
           rewrite length_app. simpl. lia.
      * intros (i & Hi & Hlast).
        destruct (decide (i = length pairs)) as [->|Hi'].
        -- rewrite lookup_app_r, Nat.sub_diag in Hi by lia. by injection Hi as ->.
        -- destruct (Hlast (length pairs) v').
           ++ apply lookup_lt_Some in Hi. rewrite length_app in Hi.
              simpl in Hi. lia.
           ++ by rewrite lookup_app_r, Nat.sub_diag by lia.
    + rewrite lookup_insert_ne by exact Hne. rewrite IH. split.
      * intros (i & Hi & Hlast). exists i. split.
        -- rewrite lookup_app_l; [exact Hi|]. by eapply lookup_lt_Some.
        -- intros j v'' Hj Hjv.
           apply lookup_app_Some in Hjv as [Hjv | [_ Hjv]].
           ++ by eapply Hlast.
           ++ apply list_lookup_singleton_Some in Hjv as [_ Hjv]. congruence.
      * intros (i & Hi & Hlast).
        apply lookup_app_Some in Hi as [Hi | [_ Hi]].
        -- exists i. split; [exact Hi|]. intros j v'' Hj Hjv.
           eapply (Hlast j v'' Hj). rewrite lookup_app_l; [exact Hjv|].
           by eapply lookup_lt_Some.
        -- apply list_lookup_singleton_Some in Hi as [_ Hi]. congruence.
Qed.

Section Binding.

Context {A : Type} `{NumExpr A, NanToNum A}.

(** X10.  The names are bound to the entries of the stack by position:
    a name is bound to the entry at the position of its last occurrence
    among the first [len(data)] names; names beyond the stack, and names
    not requested, are unbound; with distinct names and as many entries
    as names, name [i] is entry [i]. *)
Theorem apply_expression_binding (bands : list string) (data : list A) :
  let env := py_dict (zip bands data) in
  (forall blocks,
     _apply_expression blocks bands data
     = collect (map (fun bloc =>
                       rbind (numexpr_evaluate (str_strip bloc) env)
                             (fun v => Ok (nan_to_num v))) blocks))
  /\ (forall n band,
        env !! n = Some band <->
        exists i, bands !! i = Some n /\ data !! i = Some band
                  /\ forall j, (i < j < length data)%nat ->
                               bands !! j <> Some n)
  /\ dom env = list_to_set (take (length data) bands)
  /\ (NoDup bands ->
      forall i n band, bands !! i = Some n -> data !! i = Some band ->
                       env !! n = Some band).
Proof.
  intros env.
  assert (Hlookup : forall n band,
            env !! n = Some band <->
            exists i, bands !! i = Some n /\ data !! i = Some band
                      /\ forall j, (i < j < length data)%nat ->
                                   bands !! j <> Some n).
  { intros n band. unfold env. rewrite py_dict_last. split.
    - intros (i & Hi & Hlast).
      apply lookup_zip_with_Some in Hi as (n' & b' & [= <- <-] & Hn & Hb).
      exists i. repeat split; [exact Hn | exact Hb|].
      intros j [Hij Hj] Hjn.
      destruct (lookup_lt_is_Some_2 data j Hj) as [b Hb'].
      apply (Hlast j b Hij). apply lookup_zip_with_Some. by exists n, b.
    - intros (i & Hn & Hb & Hlast). exists i. split.
      + apply lookup_zip_with_Some. by exists n, band.
      + intros j v' Hij Hj.
        apply lookup_zip_with_Some in Hj as (n' & b' & [= <- <-] & Hn' & Hb').
        apply (Hlast j); [|exact Hn'].
        split; [exact Hij | by eapply lookup_lt_Some]. }
  split; [reflexivity|]. split; [exact Hlookup|]. split.
  - unfold env. rewrite py_dict_dom. f_equal.
    clear. revert data. induction bands as [|n bands IH]; intros [|b data];
      simpl; try reflexivity.
    by rewrite IH.
  - intros Hnodup i n band Hn Hb. apply Hlookup. exists i.
    repeat split; [exact Hn | exact Hb|].
    intros j [Hij _] Hj.
    pose proof (NoDup_lookup _ _ _ _ Hnodup Hn Hj). lia.
Qed.

End Binding.

(** X10, at two names and a stack of two bands. *)
Lemma apply_expression_binding_witness :
  py_dict (zip ["B01"; "B02"] [[[SInt 1]]; [[SInt 2]]]) !! "B02"
  = Some [[SInt 2]].
Proof.
  destruct (@apply_expression_binding _ Fixture.numexpr_plane _
              ["B01"; "B02"] [[[SInt 1]]; [[SInt 2]]])
    as (_ & _ & _ & Hnodup).
  apply (fun Hnd => Hnodup Hnd 1%nat); [|reflexivity..].
  apply (bool_decide_unpack _). vm_compute. exact I.
Defined.












Section Blocks.

Context {A : Type} `{NumExpr A, NanToNum A}.



End Blocks.


(** ** Merging: one asset, any order, in stages *)

(** Planes of one shape that agree at every pixel are equal. *)
Lemma plane_ext {A} (p q : np.plane A) (h w : nat) :
  np.shape2 p = Some (h, w) -> np.shape2 q = Some (h, w) ->
  (forall i j, (i < h)%nat -> (j < w)%nat -> get2 p i j = get2 q i j) ->
  p = q.
Proof.
  intros (Hp & Hrp & _)%shape2_rect (Hq & Hrq & _)%shape2_rect Hpix.
  apply list_eq. intros i.
  destruct (decide (i < h)%nat) as [Hi|Hi].
  - destruct (lookup_lt_is_Some_2 p i) as [rp Hrpi]; [lia|].
    destruct (lookup_lt_is_Some_2 q i) as [rq Hrqi]; [lia|].
    rewrite Hrpi, Hrqi. f_equal.
    rewrite Forall_forall in Hrp, Hrq.
    pose proof (Hrp rp (list_elem_of_lookup_2 _ _ _ Hrpi)) as Hlp.
    pose proof (Hrq rq (list_elem_of_lookup_2 _ _ _ Hrqi)) as Hlq.
    apply list_eq. intros j.
    destruct (decide (j < w)%nat) as [Hj|Hj].
    + specialize (Hpix i j Hi Hj). unfold get2 in Hpix.
      by rewrite Hrpi, Hrqi in Hpix.
    + by rewrite !lookup_ge_None_2 by lia.
  - by rewrite !lookup_ge_None_2 by lia.
Qed.

(** The merge of same-shaped results, pixel by pixel. *)
Lemma assemble_pixels (results : list pixels) (h w : nat) :
  results <> [] ->
  Forall (well_shaped h w) results ->
  exists mask,
    assemble results = Ok (concat results.*1, mask)
    /\ np.shape2 mask = Some (h, w)
    /\ forall i j, (i < h)%nat -> (j < w)%nat ->
         get2 mask i j
         = Some (if forallb (fun m => valid_at m i j) results.*2
                 then 255 else 0)%Z.
Proof.
  intros Hne Hshapes.
  destruct results as [|[d0 m0] rest]; [done|].
  assert (Hdata : np.concatenate (d0 :: rest.*1)
                  = Ok (concat (d0 :: rest.*1))).
  { apply (concatenate_same_shape _ h w); [done|].
    change (d0 :: rest.*1) with (((d0, m0) :: rest).*1).
    apply Forall_fmap. eapply Forall_impl; [exact Hshapes|].
    by intros r [_ Hr]. }
  assert (Hmasks : Forall (fun m => np.shape2 m = Some (h, w))
                          (m0 :: rest.*2)).
  { change (m0 :: rest.*2) with (((d0, m0) :: rest).*2).
    apply Forall_fmap. eapply Forall_impl; [exact Hshapes|].
    by intros r [Hr _]. }
  pose proof (all_axis0_same_shape m0 rest.*2 h w Hmasks) as Hall.
  destruct (foldl_logical_and (map (map (map np.nonzero)) rest.*2)
              (map (map np.nonzero) m0) h w) as [Hshape Hpix].
  { rewrite shape2_map. by apply Forall_cons in Hmasks as [? _]. }
  { apply Forall_cons in Hmasks as [_ Hms].
    apply Forall_forall. intros p (m & -> & Hm)%list_elem_of_fmap.
    rewrite shape2_map. rewrite Forall_forall in Hms. by apply Hms. }
  eexists. split; [|split].
  - unfold assemble. rewrite Hdata. simpl. rewrite Hall. reflexivity.
  - unfold np.astype_uint8_times_255. by rewrite shape2_map.
  - intros i j Hi Hj. unfold np.astype_uint8_times_255.
    rewrite get2_map, (Hpix i j Hi Hj). simpl.
    rewrite default_valid_at, forallb_valid_at.
    assert (Hb : forall b : bool,
              ((Z.b2z b * 255) `mod` 256 = if b then 255 else 0)%Z)
      by (by intros []).
    rewrite Hb. reflexivity.
Qed.

Lemma forallb_Permutation {A} (f : A -> bool) (l k : list A) :
  l ≡ₚ k -> forallb f l = forallb f k.
Proof.
  induction 1 as [|x l k _ IH|x y l|l k m _ IH1 _ IH2]; simpl.
  - reflexivity.
  - by rewrite IH.
  - by rewrite !andb_assoc, (andb_comm (f y)).
  - by rewrite IH1.
Qed.

Lemma concat_Permutation {A} (l k : list (list A)) :
  l ≡ₚ k -> concat l ≡ₚ concat k.
Proof.
  induction 1 as [|x l k _ IH|x y l|l k m _ IH1 _ IH2]; simpl.
  - reflexivity.
  - by rewrite IH.
  - rewrite !(assoc_L (++)). by rewrite (Permutation_app_comm y x).
  - by rewrite IH1.
Qed.

(** X13.  A request for one asset returns that asset's bands as they
    were read; its mask is returned with every non-zero entry raised to
    255, so it is returned unchanged exactly when it already consists of
    0 and 255 only. *)
Theorem assemble_single (data : list (np.plane scalar))
    (mask : np.plane Z) (h w : nat) :
  well_shaped h w (data, mask) ->
  let merged := map (map (fun v => if np.nonzero v then 255 else 0)%Z) mask in
  assemble [(data, mask)] = Ok (data, merged)
  /\ (merged = mask <->
      Forall (Forall (fun v => v = 0 \/ v = 255)%Z) mask).
Proof.
  intros Hshape merged.
  destruct (assemble_pixels [(data, mask)] h w) as (m & Hok & Hm & Hpix);
    [done | by constructor |].
  assert (Hmerged : np.shape2 merged = Some (h, w)).
  { unfold merged. rewrite shape2_map. apply Hshape. }
  split.
  - rewrite Hok. simpl. rewrite app_nil_r. repeat f_equal.
    apply (plane_ext _ _ h w Hm Hmerged). intros i j Hi Hj.
    rewrite (Hpix i j Hi Hj). unfold merged. rewrite get2_map. simpl.
    unfold valid_at.
    destruct (get2_is_Some mask h w i j (proj1 Hshape) Hi Hj) as [v ->].
    simpl. rewrite andb_true_r. by destruct (np.nonzero v).
  - unfold merged. clear. split.
    + intros Heq. apply Forall_forall. intros row Hrow.
      apply Forall_forall. intros v Hv.
      apply list_elem_of_lookup in Hrow as [i Hi].
      apply list_elem_of_lookup in Hv as [j Hj].
      assert (Hget : get2 (map (map (fun v => if np.nonzero v then 255 else 0)%Z)
                               mask) i j = get2 mask i j) by by rewrite Heq.
      rewrite get2_map in Hget. unfold get2 in Hget.
      rewrite Hi in Hget. simpl in Hget. rewrite Hj in Hget.
      injection Hget as Hget. unfold np.nonzero in Hget.
      destruct (v =? 0)%Z eqn:Hz; simpl in Hget; [|by right].
      left. by apply Z.eqb_eq.
    + intros Hall. induction Hall as [|row mask Hrow _ IH]; [reflexivity|].
      simpl. rewrite IH. f_equal.
      induction Hrow as [|v row Hv _ IHrow]; [reflexivity|].
      simpl. rewrite IHrow. f_equal. by destruct Hv as [-> | ->].
Qed.

(** X14.  The merged mask does not depend on the order of the assets,
    and the merged bands are the same bands in the order of the
    request: merging a permutation of the per-asset results gives the
    same mask and a permutation of the bands. *)
Theorem assemble_order (results results' : list pixels) (h w : nat) :
  results <> [] ->
  Forall (well_shaped h w) results ->
  results' ≡ₚ results ->
  exists data data' mask,
    assemble results = Ok (data, mask)
    /\ assemble results' = Ok (data', mask)
    /\ data' ≡ₚ data
    /\ (forall i j v, get2 mask i j = Some v -> v = 0 \/ v = 255)%Z.
Proof.
  intros Hne Hshapes Hperm.
  assert (Hne' : results' <> []).
  { intros ->. by apply Permutation_nil_l in Hperm. }
  assert (Hshapes' : Forall (well_shaped h w) results') by by rewrite Hperm.
  destruct (assemble_pixels results h w Hne Hshapes) as (m & Hok & Hm & Hpix).
  destruct (assemble_pixels results' h w Hne' Hshapes')
    as (m' & Hok' & Hm' & Hpix').
  assert (m' = m) as ->.
  { apply (plane_ext _ _ h w Hm' Hm). intros i j Hi Hj.
    rewrite (Hpix i j Hi Hj), (Hpix' i j Hi Hj).
    by rewrite (forallb_Permutation _ results'.*2 results.*2)
      by by rewrite Hperm. }
  exists (concat results.*1), (concat results'.*1), m.
  split; [exact Hok|]. split; [exact Hok'|]. split.
  - apply concat_Permutation. by rewrite Hperm.
  - intros i j v Hv.
    apply shape2_rect in Hm as (Hlen & Hrows & _).
    assert (Hi : (i < h)%nat).
    { unfold get2 in Hv. destruct (m !! i) eqn:Hmi; [|discriminate].
      apply lookup_lt_Some in Hmi. lia. }
    assert (Hj : (j < w)%nat).
    { unfold get2 in Hv. destruct (m !! i) as [row|] eqn:Hmi; [|discriminate].
      simpl in Hv. apply lookup_lt_Some in Hv.
      rewrite Forall_forall in Hrows.
      rewrite <- (Hrows row); [exact Hv|]. by eapply list_elem_of_lookup_2. }
    rewrite (Hpix i j Hi Hj) in Hv. injection Hv as <-.
    destruct (forallb _ _); auto.
Qed.

(** X15.  Merging can be done in stages: the merge of two groups of
    results, merged again as two results, is the merge of all of them
    at once. *)
Theorem assemble_staged (group1 group2 : list pixels) (h w : nat)
    (merged1 merged2 : pixels) :
  Forall (well_shaped h w) group1 ->
  Forall (well_shaped h w) group2 ->
  assemble group1 = Ok merged1 ->
  assemble group2 = Ok merged2 ->
  assemble [merged1; merged2] = assemble (group1 ++ group2)
  /\ exists merged, assemble (group1 ++ group2) = Ok merged.
Proof.
  intros Hs1 Hs2 Hm1 Hm2.
  assert (Hne1 : group1 <> []) by (intros ->; discriminate).
  assert (Hne2 : group2 <> []) by (intros ->; discriminate).
  destruct (assemble_pixels group1 h w Hne1 Hs1) as (m1 & Hok1 & Hsh1 & Hpix1).
  destruct (assemble_pixels group2 h w Hne2 Hs2) as (m2 & Hok2 & Hsh2 & Hpix2).
  rewrite Hok1 in Hm1. injection Hm1 as <-.
  rewrite Hok2 in Hm2. injection Hm2 as <-.
  assert (Hne : (group1 ++ group2)%list <> []).
  { intros [? _]%app_eq_nil. done. }
  destruct (assemble_pixels (group1 ++ group2) h w Hne) as (m & Hok & Hsh & Hpix);
    [by apply Forall_app|].
  assert (Hbands : forall g, Forall (well_shaped h w) g ->
            Forall (fun band => np.shape2 band = Some (h, w)) (concat g.*1)).
  { intros g Hg. apply Forall_concat, Forall_fmap.
    eapply Forall_impl; [exact Hg|]. by intros r [_ ?]. }
  destruct (assemble_pixels [(concat group1.*1, m1); (concat group2.*1, m2)] h w)
    as (m' & Hok' & Hsh' & Hpix'); [done | |].
  { repeat constructor; simpl; auto. }
  split; [|by eexists].
  etrans; [exact Hok'|]. symmetry. etrans; [exact Hok|].
  assert (Hm : m = m').
  { apply (plane_ext _ _ h w Hsh Hsh'). intros i j Hi Hj.
    rewrite (Hpix i j Hi Hj), (Hpix' i j Hi Hj).
    rewrite fmap_app, forallb_app. cbn [fmap list_fmap snd forallb].
    rewrite andb_true_r. unfold valid_at at 3 4.
    rewrite (Hpix1 i j Hi Hj), (Hpix2 i j Hi Hj).
    by destruct (forallb _ group1.*2), (forallb _ group2.*2). }
  rewrite Hm. f_equal. f_equal.
  rewrite fmap_app, concat_app. cbn [fmap list_fmap fst concat].
  by rewrite app_nil_r.
Qed.

(** X13, at a one-band result whose mask holds a 128. *)
Lemma assemble_single_witness :
  assemble [([[[SInt 7; SInt 8]]], [[128; 0]]%Z)]
  = Ok ([[[SInt 7; SInt 8]]], [[255; 0]]%Z).
Proof.
  destruct (assemble_single [[[SInt 7; SInt 8]]] [[128; 0]]%Z 1 2)
    as [Hok _]; [by repeat constructor | exact Hok].
Defined.

(** X14, at two results taken in either order. *)
Lemma assemble_order_witness :
  exists data data' mask,
    assemble [Fixture.one_band 1; Fixture.one_band 2] = Ok (data, mask)
    /\ assemble [Fixture.one_band 2; Fixture.one_band 1] = Ok (data', mask)
    /\ data' ≡ₚ data.
Proof.
  destruct (assemble_order [Fixture.one_band 1; Fixture.one_band 2]
              [Fixture.one_band 2; Fixture.one_band 1] 2 2)
    as (data & data' & mask & H1 & H2 & H3 & _).
  - discriminate.
  - repeat constructor.
  - apply Permutation_swap.
  - by exists data, data', mask.
Defined.

(** X15, at three results merged as one and two. *)
Lemma assemble_staged_witness :
  exists merged1 merged2,
    assemble [Fixture.one_band 1] = Ok merged1
    /\ assemble [Fixture.one_band 2; Fixture.one_band 3] = Ok merged2
    /\ assemble [merged1; merged2]
       = assemble [Fixture.one_band 1; Fixture.one_band 2; Fixture.one_band 3].
Proof.
  eexists _, _. split; [vm_compute; reflexivity|].
  split; [vm_compute; reflexivity|].
  eapply (assemble_staged [Fixture.one_band 1]
            [Fixture.one_band 2; Fixture.one_band 3] 2 2).
  - repeat constructor.
  - repeat constructor.
  - vm_compute. reflexivity.
  - vm_compute. reflexivity.
Defined.
